(** * run_camoufox.py : the instance launch orchestrator

    A shallow embedding of [src/run_camoufox.py] and the properties of its
    launch loop, filename validation, pacing and interrupt handling.

    Modelling conventions.
    - A Python [str] is the Rocq [string] of its UTF-8 bytes. [strip]
      removes every character [str.isspace] accepts, the ones outside ASCII
      by their UTF-8 encoding; [lower] acts on the ASCII letters, the only
      ones that lower to a letter of [.json].
    - Python [dict]s with string keys and values are [gmap string string];
      [d.copy(); d.update(p)] is the left-biased union [p ∪ d].
    - [pathlib] paths are lists of components counted from the root; what
      [Path.resolve] answers depends on the file system (symbolic links), so
      it is a field of the [World] the program runs in, as are the process
      environment, the content of the cookies directory and the way each
      worker process reacts to waiting and to a termination signal.
    - Effects are threaded through a state-and-exception monad [M]; every
      observable action is appended to a trace of [event]s.
    - [os.path.basename] is the POSIX one; [os.makedirs], [setup_logging]
      and [Process.start] are taken to succeed.
    - Ctrl+C is delivered while the supervisor sits in a blocking call
      ([time.sleep] or [Process.join]), where it spends its time. A run
      may receive several, and [Path.resolve] may raise on a loop of
      symbolic links: both are part of the state a run starts in
      ([start_with]); [start] and [run_main] are the runs with at most one
      Ctrl+C and no such loop. *)

From Stdlib Require Import String Ascii List Bool Arith Lia.
From stdpp Require Import base gmap strings list.
Import ListNotations.
Local Open Scope string_scope.
Local Open Scope list_scope.

(** ** Strings *)

Module Str.

Definition is_upper (c : ascii) : bool :=
  Nat.leb 65 (nat_of_ascii c) && Nat.leb (nat_of_ascii c) 90.

Definition lower_char (c : ascii) : ascii :=
  if is_upper c then ascii_of_nat (nat_of_ascii c + 32) else c.

(** [s.lower()] *)
Fixpoint lower (s : string) : string :=
  match s with
  | EmptyString => EmptyString
  | String c r => String (lower_char c) (lower r)
  end.

(** [s.endswith(suf)]: some suffix of [s] is [suf]. *)
Fixpoint endswith (s suf : string) : bool :=
  String.eqb s suf ||
  match s with
  | EmptyString => false
  | String _ r => endswith r suf
  end.

(** The characters [str.isspace] accepts, each as the bytes of its UTF-8
    encoding: U+0009 to U+000D, U+001C to U+0020, U+0085, U+00A0, U+1680,
    U+2000 to U+200A, U+2028, U+2029, U+202F, U+205F and U+3000. *)
Definition whitespace : list (list ascii) :=
  map (map ascii_of_nat)
    ([[9]; [10]; [11]; [12]; [13]; [28]; [29]; [30]; [31]; [32];
      [194; 133]; [194; 160]; [225; 154; 128];
      [226; 128; 128]; [226; 128; 129]; [226; 128; 130]; [226; 128; 131];
      [226; 128; 132]; [226; 128; 133]; [226; 128; 134]; [226; 128; 135];
      [226; 128; 136]; [226; 128; 137]; [226; 128; 138];
      [226; 128; 168]; [226; 128; 169]; [226; 128; 175];
      [226; 129; 159]; [227; 128; 128]] : list (list nat)).

(** [l] without its leading [p], when it starts with [p]. *)
Fixpoint cut_prefix (p l : list ascii) : option (list ascii) :=
  match p, l with
  | [], _ => Some l
  | a :: p', b :: l' => if Ascii.eqb a b then cut_prefix p' l' else None
  | _ :: _, [] => None
  end.

(** [l] without one leading member of [ps], when it starts with one. *)
Fixpoint cut_one (ps : list (list ascii)) (l : list ascii)
  : option (list ascii) :=
  match ps with
  | [] => None
  | p :: ps' =>
      match cut_prefix p l with
      | Some r => Some r
      | None => cut_one ps' l
      end
  end.

(** [l] without its leading members of [ps]; [fuel] bounds their number. *)
Fixpoint cut_all (ps : list (list ascii)) (fuel : nat) (l : list ascii)
  : list ascii :=
  match fuel with
  | 0 => l
  | S fuel' =>
      match cut_one ps l with
      | Some r => cut_all ps fuel' r
      | None => l
      end
  end.

(** [s.lstrip()] and [s.rstrip()] on the bytes of [s]. *)
Definition lstrip_chars (l : list ascii) : list ascii :=
  cut_all whitespace (length l) l.

Definition rstrip_chars (l : list ascii) : list ascii :=
  rev (cut_all (map (@rev ascii) whitespace) (length l) (rev l)).

(** [s.strip()] *)
Definition strip (s : string) : string :=
  string_of_list_ascii
    (rstrip_chars (lstrip_chars (list_ascii_of_string s))).

Definition is_sep (c : ascii) : bool := Ascii.eqb c "/"%char.

(** ['/' in s] *)
Fixpoint has_sep (s : string) : bool :=
  match s with
  | EmptyString => false
  | String c r => is_sep c || has_sep r
  end.

(** [os.path.basename(p)], that is [p[p.rfind('/') + 1:]]: what follows
    the last separator, the whole of [p] when it has none. *)
Fixpoint basename (p : string) : string :=
  match p with
  | EmptyString => EmptyString
  | String c r =>
      if has_sep r then basename r
      else if is_sep c then r else p
  end.

End Str.

(** ** Paths *)

Module Path.

(** An absolute path, as the list of its components from the root. *)
Definition path := list string.

(** The pieces of [s] between separators, [cur] being the piece read so
    far. *)
Fixpoint pieces (cur s : string) : list string :=
  match s with
  | EmptyString => [cur]
  | String c r =>
      if Str.is_sep c then cur :: pieces EmptyString r
      else pieces (cur +:+ String c EmptyString) r
  end.

(** The components [pathlib] keeps of a relative string: empty pieces and
    ["."] are dropped, [".."] stays until the path is resolved. *)
Definition components (s : string) : list string :=
  List.filter (fun x => negb (String.eqb x "") && negb (String.eqb x "."))
              (pieces "" s).

Definition is_absolute (s : string) : bool :=
  match s with
  | String c _ => Str.is_sep c
  | EmptyString => false
  end.

(** [p / s] *)
Definition join (p : path) (s : string) : path :=
  if is_absolute s then components s else p ++ components s.

(** The proper prefixes of [p], shortest first. *)
Fixpoint prefixes (p : path) : list path :=
  match p with
  | [] => []
  | c :: r => [] :: map (cons c) (prefixes r)
  end.

(** [p.parents]: the logical ancestors of [p], nearest first. *)
Definition parents (p : path) : list path := rev (prefixes p).

(** [p] lies strictly below [root]. *)
Definition strictly_within (root p : path) : Prop :=
  exists rest, rest <> [] /\ p = root ++ rest.

End Path.

Import Path.

(** ** The world the orchestrator runs in *)

(** A worker handle: the position of the process in [processes]. *)
Definition handle := nat.

(** How a worker process behaves once started. *)
Inductive behaviour :=
| ExitsOnItsOwn        (* the session ends by itself *)
| RunsUntilSignalled   (* runs until it receives the termination signal *)
| IgnoresSignal.       (* never exits, not even when signalled *)

(** The cookies directory as [os.path.isdir] and [os.listdir] see it. *)
Inductive dirstate :=
| Missing
| Listable (names : list string)
| Unlistable (err : string).   (* [os.listdir] raises *)

Record World := {
  environ : gmap string string;       (* [os.environ] *)
  cookies_dir : path;                 (* [utils.paths.cookies_dir()] *)
  cookies_at_start : dirstate;
  resolve : path -> path;             (* [Path.resolve], where it answers *)
  worker : handle -> behaviour
}.

(** ** Observable actions *)

Inductive level := INFO | WARNING | ERROR.

(** One constructor per log line of the source, in source order. *)
Inductive message :=
| MissingUrl                              (* line 24 *)
| CookiesDirMissing (p : path)            (* line 41 *)
| NoCookieFiles (p : path)                (* line 48 *)
| ScanFailed (e : string)                 (* line 52 *)
| FoundCookies (p : path) (n : nat)       (* line 58 *)
| SharedUrl (u : string)                  (* line 59 *)
| ManagerStarting                         (* line 74 *)
| NoInstances                             (* line 78 *)
| SkipInvalidItem (profile : gmap string string)  (* line 87 *)
| NameCarriesPath (c : string)            (* line 93 *)
| NotJson (c : string)                    (* line 99 *)
| OutsideCookies (c : string)             (* line 107 *)
| Starting (i n : nat) (c : string)       (* line 111 *)
| Waiting30                               (* line 118 *)
| NoValidInstance                         (* line 122 *)
| AllStarted (n : nat)                    (* line 125 *)
| CaughtCtrlC                             (* line 131 *)
| AllTerminated.                          (* line 135 *)

Inductive dirname := LogsDir | CookiesDir.

Inductive event :=
| EMakedirs (d : dirname)
| ELog (l : level) (m : message)
| EIsDir                                   (* [os.path.isdir(cookie_path)] *)
| EListDir                                 (* [os.listdir(cookie_path)] *)
| ESpawn (h : handle) (cfg : gmap string string)   (* [process.start()] *)
| ESleep (secs : nat)                      (* [time.sleep] returned *)
| EJoin (h : handle)                       (* [process.join()] returned *)
| ETerminate (h : handle)                  (* [process.terminate()] *)
| EInterrupt.                              (* KeyboardInterrupt raised *)

(** ** The monad *)

Inductive exn :=
| KeyboardInterrupt   (* Ctrl+C reached the supervisor *)
| RuntimeError.       (* [Path.resolve] met a loop of symbolic links *)

Inductive outcome (A : Type) :=
| Done (a : A)          (* returned *)
| Raised (e : exn)      (* an exception is propagating *)
| Blocked.              (* waits for ever *)
Arguments Done {A} a.
Arguments Raised {A} e.
Arguments Blocked {A}.

Record state := {
  trace : list event;
  pending : option nat;      (* [Some n]: Ctrl+C arrives after [n] more
                                blocking calls have returned *)
  later : list nat;          (* the Ctrl+C's after that one, each counted
                                from the one before it *)
  broken : list path;        (* the paths [Path.resolve] raises on *)
  signalled : list handle;   (* the workers that were sent the signal *)
  cookies : dirstate
}.

Definition M (A : Type) : Type := state -> outcome A * state.

Definition ret {A} (a : A) : M A := fun s => (Done a, s).

Definition bind {A B} (k : A -> M B) (m : M A) : M B :=
  fun s =>
    match m s with
    | (Done a, s') => k a s'
    | (Raised e, s') => (Raised e, s')
    | (Blocked, s') => (Blocked, s')
    end.

#[global] Instance M_ret : MRet M := @ret.
#[global] Instance M_bind : MBind M := @bind.

(** [try: m except KeyboardInterrupt: h] *)
Definition try_except {A} (m h : M A) : M A :=
  fun s =>
    match m s with
    | (Raised KeyboardInterrupt, s') => h s'
    | r => r
    end.

Definition raise {A} (e : exn) : M A := fun s => (Raised e, s).

Definition emit (e : event) (s : state) : state :=
  {| trace := trace s ++ [e]; pending := pending s; later := later s;
     broken := broken s; signalled := signalled s; cookies := cookies s |}.

Definition set_pending (p : option nat) (s : state) : state :=
  {| trace := trace s; pending := p; later := later s;
     broken := broken s; signalled := signalled s; cookies := cookies s |}.

(** The pending Ctrl+C was delivered: the next one, if any, is now due. *)
Definition next_interrupt (s : state) : state :=
  {| trace := trace s;
     pending := match later s with [] => None | n :: _ => Some n end;
     later := match later s with [] => [] | _ :: l => l end;
     broken := broken s; signalled := signalled s; cookies := cookies s |}.

Definition act (e : event) : M unit := fun s => (Done tt, emit e s).

Definition log (l : level) (m : message) : M unit := act (ELog l m).

(** The pending Ctrl+C reaches the supervisor in a blocking call. *)
Definition interrupted {A} : M A :=
  fun s => (Raised KeyboardInterrupt, emit EInterrupt (next_interrupt s)).

(** A blocking call that returns by itself, recorded as [e]. *)
Definition blocking (e : event) : M unit :=
  fun s =>
    match pending s with
    | Some 0 => interrupted s
    | Some (S n) => (Done tt, emit e (set_pending (Some n) s))
    | None => (Done tt, emit e s)
    end.

(** A blocking call that never returns by itself. *)
Definition stuck {A} : M A :=
  fun s =>
    match pending s with
    | Some _ => interrupted s
    | None => (Blocked, s)
    end.

(** [os.makedirs(d, exist_ok=True)] *)
Definition makedirs (d : dirname) : M unit :=
  fun s =>
    let c := match d, cookies s with
             | CookiesDir, Missing => Listable []
             | _, c => c
             end in
    (Done tt, emit (EMakedirs d)
                {| trace := trace s; pending := pending s; later := later s;
                   broken := broken s; signalled := signalled s;
                   cookies := c |}).

(** [os.path.isdir(cookie_path)] *)
Definition isdir : M bool :=
  fun s =>
    (Done (match cookies s with Missing => false | _ => true end),
     emit EIsDir s).

(** [os.listdir(cookie_path)]: the names, or the text of the exception. *)
Definition listdir : M (string + list string) :=
  fun s =>
    (Done (match cookies s with
           | Listable names => inr names
           | Unlistable err => inl err
           | Missing => inl "FileNotFoundError"
           end),
     emit EListDir s).

(** [time.sleep(secs)] *)
Definition sleep (secs : nat) : M unit := blocking (ESleep secs).

(** Does worker [h] ever exit, given the signals sent so far? *)
Definition exits (w : World) (s : state) (h : handle) : bool :=
  match worker w h with
  | ExitsOnItsOwn => true
  | RunsUntilSignalled => bool_decide (h ∈ signalled s)
  | IgnoresSignal => false
  end.

(** [process.join()] *)
Definition join_process (w : World) (h : handle) : M unit :=
  fun s => if exits w s h then blocking (EJoin h) s else stuck s.

(** [process.terminate()] *)
Definition terminate (h : handle) : M unit :=
  fun s =>
    (Done tt, emit (ETerminate h)
                {| trace := trace s; pending := pending s; later := later s;
                   broken := broken s; signalled := h :: signalled s;
                   cookies := cookies s |}).

(** The state after [terminate process] and a completed join of it. *)
Definition swept_one (h : handle) (s : state) : state :=
  emit (EJoin h)
    {| trace := trace s ++ [ETerminate h]; pending := pending s;
       later := later s; broken := broken s;
       signalled := h :: signalled s; cookies := cookies s |}.

(** ** The program *)

(** [_clean_env_value], lines 10-14. [None] is Python's [None]. *)
Definition _clean_env_value (raw : option string) : option string :=
  match raw with
  | None => None
  | Some raw =>
      let stripped := Str.strip raw in
      if String.eqb stripped "" then None else Some stripped
  end.

(** [os.getenv] *)
Definition getenv (w : World) (name : string) : option string :=
  environ w !! name.

(** The test of lines 45 and 97: [f.lower().endswith('.json')]. *)
Definition is_json (f : string) : bool :=
  Str.endswith (Str.lower f) ".json".

(** The global settings built at lines 28-35. *)
Definition global_settings_of (w : World) (shared_url : string)
  : gmap string string :=
  let global_settings : gmap string string :=
    <["url" := shared_url]>
      (<["headless" :=
           default "virtual" (_clean_env_value (getenv w "CAMOUFOX_HEADLESS"))]> ∅) in
  match _clean_env_value (getenv w "CAMOUFOX_PROXY") with
  | Some proxy_value => <["proxy" := proxy_value]> global_settings
  | None => global_settings
  end.

(** [load_instances_from_env], lines 17-61. The result [None] stands for
    the pair [(None, None)]. *)
Definition load_instances_from_env (w : World)
  : M (option (gmap string string * list (gmap string string))) :=
  match _clean_env_value (getenv w "CAMOUFOX_INSTANCE_URL") with
  | None => log ERROR MissingUrl;; mret None
  | Some shared_url =>
      let global_settings := global_settings_of w shared_url in
      let cookie_path := cookies_dir w in
      d ← isdir;
      if negb d then log ERROR (CookiesDirMissing cookie_path);; mret None
      else
        r ← listdir;
        match r with
        | inl e => log ERROR (ScanFailed e);; mret None
        | inr names =>
            let cookie_files := List.filter is_json names in
            match cookie_files with
            | [] => log ERROR (NoCookieFiles cookie_path);; mret None
            | _ =>
                let instances :=
                  map (fun f => ({["cookie_file" := f]} : gmap string string))
                      cookie_files in
                log INFO (FoundCookies cookie_path (length instances));;
                log INFO (SharedUrl shared_url);;
                mret (Some (global_settings, instances))
            end
        end
  end.

(** What lines 83-109 decide for one profile. *)
Inductive verdict :=
| Accept (final_config : gmap string string) (cookie_candidate : string)
| Skip (l : level) (m : message).

(** The test of lines 103-105: the resolved candidate is neither below the
    resolved cookies directory nor that directory itself. *)
Definition escapes (w : World) (cookie_candidate : string) : bool :=
  let cookies_root := resolve w (cookies_dir w) in
  let resolved_cookie := resolve w (Path.join cookies_root cookie_candidate) in
  bool_decide (cookies_root ∉ parents resolved_cookie)
  && bool_decide (resolved_cookie ≠ cookies_root).

(** Lines 83-109 of [main]: merge, then the four checks in order. *)
Definition check_profile (w : World) (global_settings profile : gmap string string)
  : verdict :=
  let final_config := profile ∪ global_settings in
  match final_config !! "cookie_file", final_config !! "url" with
  | Some cookie_candidate, Some _ =>
      if negb (String.eqb (Str.basename cookie_candidate) cookie_candidate)
      then Skip ERROR (NameCarriesPath cookie_candidate)
      else if negb (is_json cookie_candidate)
      then Skip ERROR (NotJson cookie_candidate)
      else if escapes w cookie_candidate
      then Skip ERROR (OutsideCookies cookie_candidate)
      else Accept final_config cookie_candidate
  | _, _ => Skip WARNING (SkipInvalidItem profile)
  end.

(** The name lines 103-104 resolve: the one of a profile that passed the
    checks of lines 86, 91 and 97. *)
Definition resolved_candidate (global_settings profile : gmap string string)
  : option string :=
  let final_config := profile ∪ global_settings in
  match final_config !! "cookie_file", final_config !! "url" with
  | Some cookie_candidate, Some _ =>
      if String.eqb (Str.basename cookie_candidate) cookie_candidate
         && is_json cookie_candidate
      then Some cookie_candidate
      else None
  | _, _ => None
  end.

(** One of the two calls of [Path.resolve] at lines 103-104 raises. *)
Definition resolve_raises (w : World) (s : state)
    (global_settings profile : gmap string string) : bool :=
  match resolved_candidate global_settings profile with
  | Some cookie_candidate =>
      bool_decide (cookies_dir w ∈ broken s)
      || bool_decide
           (Path.join (resolve w (cookies_dir w)) cookie_candidate ∈ broken s)
  | None => false
  end.

(** One pass through the body of the [for] loop, lines 83-119; [n] is
    [len(instance_profiles)] and [i] the 1-based position of [profile].
    Nothing in the loop catches the RuntimeError of lines 103-104. *)
Definition launch_one (w : World) (global_settings : gmap string string)
    (n i : nat) (profile : gmap string string) (processes : list handle)
  : M (list handle) :=
  fun s =>
    if resolve_raises w s global_settings profile then raise RuntimeError s
    else
      match check_profile w global_settings profile with
      | Skip l m => log l m;; mret processes
      | Accept final_config cookie_candidate =>
          log INFO (Starting i n cookie_candidate);;
          let process := length processes in
          let processes := processes ++ [process] in
          act (ESpawn process final_config);;
          (if Nat.ltb i n
           then log INFO Waiting30;; sleep 30
           else mret tt);;
          mret processes
      end s.

(** The [for] loop of lines 82-119 from position [i] on. *)
Fixpoint launch (w : World) (global_settings : gmap string string)
    (n i : nat) (profiles : list (gmap string string)) (processes : list handle)
  : M (list handle) :=
  match profiles with
  | [] => mret processes
  | profile :: rest =>
      processes ← launch_one w global_settings n i profile processes;
      launch w global_settings n (S i) rest processes
  end.

(** Lines 128-129. *)
Fixpoint join_all (w : World) (processes : list handle) : M unit :=
  match processes with
  | [] => mret tt
  | process :: rest => join_process w process;; join_all w rest
  end.

(** Lines 132-134. *)
Fixpoint terminate_all (w : World) (processes : list handle) : M unit :=
  match processes with
  | [] => mret tt
  | process :: rest =>
      terminate process;; join_process w process;; terminate_all w rest
  end.

(** Lines 127-135. *)
Definition supervise (w : World) (processes : list handle) : M unit :=
  try_except
    (join_all w processes)
    (log INFO CaughtCtrlC;;
     terminate_all w processes;;
     log INFO AllTerminated).

(** [main], lines 64-135. *)
Definition main (w : World) : M unit :=
  makedirs LogsDir;;
  makedirs CookiesDir;;
  log INFO ManagerStarting;;
  r ← load_instances_from_env w;
  match r with
  | None | Some (_, []) => log ERROR NoInstances
  | Some (global_settings, instance_profiles) =>
      processes ← launch w global_settings (length instance_profiles) 1
                         instance_profiles [];
      match processes with
      | [] => log ERROR NoValidInstance
      | _ =>
          log INFO (AllStarted (length processes));;
          supervise w processes
      end
  end.

(** The state a run starts in: the first Ctrl+C is scheduled by [ctrl_c],
    the ones after it by [more], and [Path.resolve] raises on the paths
    [unresolvable]. *)
Definition start_with (w : World) (ctrl_c : option nat) (more : list nat)
    (unresolvable : list path) : state :=
  {| trace := []; pending := ctrl_c; later := more; broken := unresolvable;
     signalled := []; cookies := cookies_at_start w |}.

Definition run_main_with (w : World) (ctrl_c : option nat) (more : list nat)
    (unresolvable : list path) : outcome unit * state :=
  main w (start_with w ctrl_c more unresolvable).

(** A run of the program in world [w] with at most one Ctrl+C, scheduled
    by [ctrl_c], and every path resolvable. *)
Definition start (w : World) (ctrl_c : option nat) : state :=
  start_with w ctrl_c [] [].

Definition run_main (w : World) (ctrl_c : option nat) : outcome unit * state :=
  main w (start w ctrl_c).

(** ** Reading a trace *)

(** The configurations handed to workers, in spawn order. *)
Fixpoint spawned (tr : list event) : list (gmap string string) :=
  match tr with
  | [] => []
  | ESpawn _ cfg :: r => cfg :: spawned r
  | _ :: r => spawned r
  end.

(** Spawns and completed sleeps, the rest of the trace left out. *)
Inductive pace := PSpawn | PSleep (secs : nat).

Fixpoint pace_view (tr : list event) : list pace :=
  match tr with
  | [] => []
  | ESpawn _ _ :: r => PSpawn :: pace_view r
  | ESleep secs :: r => PSleep secs :: pace_view r
  | _ :: r => pace_view r
  end.

(** The handles signalled, in order. *)
Fixpoint terminated (tr : list event) : list handle :=
  match tr with
  | [] => []
  | ETerminate h :: r => h :: terminated r
  | _ :: r => terminated r
  end.

(** The handles started, in order. *)
Fixpoint started_handles (tr : list event) : list handle :=
  match tr with
  | [] => []
  | ESpawn h _ :: r => h :: started_handles r
  | _ :: r => started_handles r
  end.

(** The number of Ctrl+C's that reached the supervisor. *)
Fixpoint interrupts (tr : list event) : nat :=
  match tr with
  | [] => 0
  | EInterrupt :: r => S (interrupts r)
  | _ :: r => interrupts r
  end.

(** The events of the launch loop alone, run on [profiles] from a fresh
    trace. *)
Definition launch_trace (w : World) (global_settings : gmap string string)
    (profiles : list (gmap string string)) (ctrl_c : option nat) : list event :=
  trace (snd (launch w global_settings (length profiles) 1 profiles []
                     (start w ctrl_c))).

(** ** Notions the claims are stated with *)

(** [a] and [b] are the same character up to the case of ASCII letters. *)
Definition same_letter (a b : ascii) : Prop :=
  a = b
  \/ (Str.is_upper a = true /\ nat_of_ascii b = nat_of_ascii a + 32)
  \/ (Str.is_upper b = true /\ nat_of_ascii a = nat_of_ascii b + 32).

(** [s] is [t] written in some mix of upper and lower case. *)
Inductive case_variant : string -> string -> Prop :=
| cv_nil : case_variant "" ""
| cv_cons a b s t :
    same_letter a b -> case_variant s t ->
    case_variant (String a s) (String b t).

(** A name ends in the credential extension, case ignored. *)
Definition ends_in_json_nocase (c : string) : Prop :=
  exists stem suf, c = stem +:+ suf /\ case_variant suf ".json".

(** The profile is rejected: the loop goes on to the next one. *)
Definition is_skip (v : verdict) : bool :=
  match v with Skip _ _ => true | Accept _ _ => false end.

(** The three filename invariants, as the code tests them. *)
Definition name_ok (w : World) (c : string) : bool :=
  negb (Str.has_sep c) && is_json c && negb (escapes w c).

(** The three filename invariants in the words of the specification: the
    name is its own base name, ends in the credential extension whatever
    the case, and resolves strictly within the resolved cookies
    directory. *)
Definition credential_strict (w : World) (f : string) : Prop :=
  Str.basename f = f
  /\ ends_in_json_nocase f
  /\ strictly_within (resolve w (cookies_dir w))
       (resolve w (Path.join (resolve w (cookies_dir w)) f)).

(** The same with the third invariant as line 105 keeps it: strictly within
    the resolved cookies directory, or that directory itself. *)
Definition credential_ok (w : World) (f : string) : Prop :=
  Str.basename f = f
  /\ ends_in_json_nocase f
  /\ (strictly_within (resolve w (cookies_dir w))
        (resolve w (Path.join (resolve w (cookies_dir w)) f))
      \/ resolve w (Path.join (resolve w (cookies_dir w)) f)
         = resolve w (cookies_dir w)).

(** [picks P l l']: [l'] lists the members of [l] that satisfy [P], in the
    order of [l]. *)
Inductive picks {A} (P : A -> Prop) : list A -> list A -> Prop :=
| picks_nil : picks P [] []
| picks_keep x l l' : P x -> picks P l l' -> picks P (x :: l) (x :: l')
| picks_drop x l l' : ~ P x -> picks P l l' -> picks P (x :: l) l'.

(** Spawns and waits alternate: a wait only right after a spawn, a spawn
    only first or right after a wait of 30 seconds. *)
Inductive paced : list pace -> Prop :=
| paced_nil : paced []
| paced_last : paced [PSpawn]
| paced_wait rest : paced rest -> paced (PSpawn :: PSleep 30 :: rest).

(** The bytes [l] spell white space only. *)
Definition blank (l : list ascii) : Prop :=
  exists ws, Forall (fun p => In p Str.whitespace) ws /\ l = concat ws.

(** [n] spawns with a wait of 30 seconds between each two, none after the
    last. *)
Fixpoint alternation (n : nat) : list pace :=
  match n with
  | 0 => []
  | S m =>
      match m with
      | 0 => [PSpawn]
      | S _ => PSpawn :: PSleep 30 :: alternation m
      end
  end.

(** What the launch loop may log about profiles made from the names
    [files], all of them found by discovery: never a missing key nor a wrong
    extension, a path error only for a name with a separator, a location
    error only for a name the containment test rejects. *)
Definition discovery_event (w : World) (files : list string) (e : event)
  : Prop :=
  match e with
  | ELog _ (NotJson _) | ELog _ (SkipInvalidItem _) => False
  | ELog _ (NameCarriesPath c) => In c files /\ Str.has_sep c = true
  | ELog _ (OutsideCookies c) =>
      In c files /\ Str.has_sep c = false /\ escapes w c = true
  | _ => True
  end.

(** The worker ends without being signalled. *)
Definition exits_alone (w : World) (h : handle) : bool :=
  match worker w h with
  | ExitsOnItsOwn => true
  | _ => false
  end.

(** ** The launch loop as a script of events *)

(** The events of one pass through the loop body that nothing interrupts;
    [k] workers were started before it. *)
Definition one_script (w : World) (global_settings : gmap string string)
    (n i : nat) (profile : gmap string string) (k : nat) : list event :=
  match check_profile w global_settings profile with
  | Skip l m => [ELog l m]
  | Accept final_config c =>
      [ELog INFO (Starting i n c); ESpawn k final_config]
      ++ (if Nat.ltb i n then [ELog INFO Waiting30; ESleep 30] else [])
  end.

(** The number of workers a pass with verdict [v] starts. *)
Definition started (v : verdict) : nat := if is_skip v then 0 else 1.

(** The events of the loop from position [i] on, uninterrupted. *)
Fixpoint script (w : World) (global_settings : gmap string string)
    (n i : nat) (profiles : list (gmap string string)) (k : nat) : list event :=
  match profiles with
  | [] => []
  | profile :: rest =>
      one_script w global_settings n i profile k
      ++ script w global_settings n (S i) rest
           (k + started (check_profile w global_settings profile))
  end.

(** The configurations of the profiles that pass the checks, in order. *)
Fixpoint accepted (w : World) (global_settings : gmap string string)
    (profiles : list (gmap string string)) : list (gmap string string) :=
  match profiles with
  | [] => []
  | profile :: rest =>
      match check_profile w global_settings profile with
      | Accept final_config _ => final_config :: accepted w global_settings rest
      | Skip _ _ => accepted w global_settings rest
      end
  end.

(** What the loop may put on the trace. *)
Definition launch_event (e : event) : Prop :=
  match e with
  | ELog _ (SkipInvalidItem _) | ELog _ (NameCarriesPath _)
  | ELog _ (NotJson _) | ELog _ (OutsideCookies _)
  | ELog _ (Starting _ _ _) | ELog _ Waiting30 => True
  | ESpawn _ _ => True
  | ESleep secs => secs = 30
  | _ => False
  end.

(** ** The events of the supervising phase *)

(** The handler's sweep run to its end: each handle is signalled, then
    awaited, before the next. *)
Definition sweep (processes : list handle) : list event :=
  flat_map (fun h => [ETerminate h; EJoin h]) processes.

(** What the supervising phase may put on the trace. *)
Definition supervise_event (e : event) : Prop :=
  match e with
  | EJoin _ | ETerminate _ | EInterrupt
  | ELog _ CaughtCtrlC | ELog _ AllTerminated => True
  | _ => False
  end.

(** ** The shapes of a run *)

(** The endpoint all workers share, when the environment gives one. *)
Definition shared_url (w : World) : option string :=
  _clean_env_value (getenv w "CAMOUFOX_INSTANCE_URL").

(** The credential files discovery finds, in enumeration order. *)
Definition cookie_files (w : World) : list string :=
  match cookies_at_start w with
  | Listable names => List.filter is_json names
  | _ => []
  end.

(** The profile line 56 makes of a file name. *)
Definition profile_of (f : string) : gmap string string :=
  {["cookie_file" := f]}.

(** The profiles discovery hands to the launch loop. *)
Definition main_profiles (w : World) : list (gmap string string) :=
  map profile_of (cookie_files w).

(** Lines 68-74. *)
Definition setup_trace : list event :=
  [EMakedirs LogsDir; EMakedirs CookiesDir; ELog INFO ManagerStarting].

(** The trace up to the start of the launch loop. *)
Definition discovery_trace (w : World) (url : string) : list event :=
  setup_trace
  ++ [EIsDir; EListDir;
      ELog INFO (FoundCookies (cookies_dir w) (length (main_profiles w)));
      ELog INFO (SharedUrl url)].

(** The launch loop of [main] in world [w], uninterrupted. *)
Definition main_script (w : World) (url : string) : list event :=
  script w (global_settings_of w url) (length (main_profiles w)) 1
         (main_profiles w) 0.

(** The configurations [main] accepts in world [w]. *)
Definition main_accepted (w : World) (url : string) : list (gmap string string) :=
  accepted w (global_settings_of w url) (main_profiles w).

(** The handles [main] tracks once the loop is over. *)
Definition main_handles (w : World) (url : string) : list handle :=
  seq 0 (length (main_accepted w url)).

(** The state in which [main] enters its launch loop. *)
Definition launch_state_with (w : World) (ctrl_c : option nat)
    (more : list nat) (unresolvable : list path) (url : string) : state :=
  {| trace := discovery_trace w url; pending := ctrl_c; later := more;
     broken := unresolvable; signalled := [];
     cookies := cookies_at_start w |}.

Definition launch_state (w : World) (ctrl_c : option nat) (url : string) : state :=
  launch_state_with w ctrl_c [] [] url.

(** Lines 121-135: what [main] does with the result of the loop. *)
Definition after_launch (w : World) (r : outcome (list handle) * state)
  : outcome unit * state :=
  match r with
  | (Done processes, s) =>
      match processes with
      | [] => log ERROR NoValidInstance
      | _ => log INFO (AllStarted (length processes));;
             supervise w processes
      end s
  | (Raised e, s) => (Raised e, s)
  | (Blocked, s) => (Blocked, s)
  end.

(** Every way a run of [main] can go: its outcome and its trace. *)
Inductive main_run (w : World) (ctrl_c : option nat)
  : outcome unit -> list event -> Prop :=
| run_no_url :
    shared_url w = None ->
    main_run w ctrl_c (Done tt)
      (setup_trace ++ [ELog ERROR MissingUrl; ELog ERROR NoInstances])
| run_unlistable url err :
    shared_url w = Some url ->
    cookies_at_start w = Unlistable err ->
    main_run w ctrl_c (Done tt)
      (setup_trace ++ [EIsDir; EListDir; ELog ERROR (ScanFailed err);
                       ELog ERROR NoInstances])
| run_no_files url :
    shared_url w = Some url ->
    (forall err, cookies_at_start w <> Unlistable err) ->
    cookie_files w = [] ->
    main_run w ctrl_c (Done tt)
      (setup_trace ++ [EIsDir; EListDir;
                       ELog ERROR (NoCookieFiles (cookies_dir w));
                       ELog ERROR NoInstances])
| run_interrupted_pacing url pre post :
    shared_url w = Some url -> cookie_files w <> [] ->
    ctrl_c <> None ->
    main_script w url = pre ++ ESleep 30 :: post ->
    main_run w ctrl_c (Raised KeyboardInterrupt)
      (discovery_trace w url ++ pre ++ [EInterrupt])
| run_none_valid url :
    shared_url w = Some url -> cookie_files w <> [] ->
    main_accepted w url = [] ->
    main_run w ctrl_c (Done tt)
      (discovery_trace w url ++ main_script w url
       ++ [ELog ERROR NoValidInstance])
| run_all_exited url :
    shared_url w = Some url -> cookie_files w <> [] ->
    main_accepted w url <> [] ->
    main_run w ctrl_c (Done tt)
      (discovery_trace w url ++ main_script w url
       ++ ELog INFO (AllStarted (length (main_accepted w url)))
       :: map EJoin (main_handles w url))
| run_waiting url joined :
    shared_url w = Some url -> cookie_files w <> [] ->
    main_accepted w url <> [] ->
    main_run w ctrl_c Blocked
      (discovery_trace w url ++ main_script w url
       ++ ELog INFO (AllStarted (length (main_accepted w url)))
       :: map EJoin joined)
| run_swept url joined :
    shared_url w = Some url -> cookie_files w <> [] ->
    main_accepted w url <> [] ->
    ctrl_c <> None ->
    main_run w ctrl_c (Done tt)
      (discovery_trace w url ++ main_script w url
       ++ ELog INFO (AllStarted (length (main_accepted w url)))
       :: map EJoin joined
       ++ [EInterrupt; ELog INFO CaughtCtrlC]
       ++ sweep (main_handles w url) ++ [ELog INFO AllTerminated])
| run_sweep_stalled url joined swept h :
    shared_url w = Some url -> cookie_files w <> [] ->
    main_accepted w url <> [] ->
    ctrl_c <> None ->
    In h (main_handles w url) -> worker w h = IgnoresSignal ->
    main_run w ctrl_c Blocked
      (discovery_trace w url ++ main_script w url
       ++ ELog INFO (AllStarted (length (main_accepted w url)))
       :: map EJoin joined
       ++ [EInterrupt; ELog INFO CaughtCtrlC]
       ++ sweep swept ++ [ETerminate h]).

(** ** Sample worlds *)

Module Sample.

Definition root : path := ["srv"; "app"; "cookies"].

(** [Path.resolve] where nothing is a symbolic link: [".."] climbs. *)
Fixpoint climb (done todo : path) : path :=
  match todo with
  | [] => rev done
  | c :: r =>
      if String.eqb c ".." then climb (tl done) r else climb (c :: done) r
  end.
Definition plain (p : path) : path := climb [] p.

Definition env : gmap string string :=
  {[ "CAMOUFOX_INSTANCE_URL" := " https://x.test " ]}.

Definition two : World :=
  {| environ := env; cookies_dir := root;
     cookies_at_start := Listable ["alice.json"; "notes.txt"; "bob.JSON"];
     resolve := plain;
     worker := fun _ => RunsUntilSignalled |}.

End Sample.

Module Worlds.

Import Sample.

(** [Path.resolve] with symbolic links: a linked path resolves to its
    target, any other path as in [plain]. *)
Definition linked (links : list (path * path)) (p : path) : path :=
  match List.find (fun l => bool_decide (fst l = p)) links with
  | Some l => snd l
  | None => plain p
  end.

(** [a.json] is a file; [z.json], listed after it, is a link to a file
    outside the cookies directory. *)
Definition trailing_link : World :=
  {| environ := env; cookies_dir := root;
     cookies_at_start := Listable ["a.json"; "z.json"];
     resolve := linked [(root ++ ["z.json"], ["etc"; "hostname"])];
     worker := fun _ => ExitsOnItsOwn |}.

(** [trailing_link] without the link: [a.json] alone. *)
Definition lone_file : World :=
  {| environ := env; cookies_dir := root;
     cookies_at_start := Listable ["a.json"];
     resolve := linked [(root ++ ["z.json"], ["etc"; "hostname"])];
     worker := fun _ => ExitsOnItsOwn |}.

(** Two files with, between them, a link to a file outside the cookies
    directory. *)
Definition link_between : World :=
  {| environ := env; cookies_dir := root;
     cookies_at_start := Listable ["a.json"; "m.json"; "z.json"];
     resolve := linked [(root ++ ["m.json"], ["etc"; "hostname"])];
     worker := fun _ => ExitsOnItsOwn |}.

(** [knot.json] is a link in a loop of links, listed before the file
    [ok.json]: [Path.resolve] raises on [knots]. *)
Definition knot : World :=
  {| environ := env; cookies_dir := root;
     cookies_at_start := Listable ["knot.json"; "ok.json"];
     resolve := plain;
     worker := fun _ => ExitsOnItsOwn |}.
Definition knots : list path := [root ++ ["knot.json"]].

(** [loop.json] is a link to the cookies directory itself. *)
Definition self_link : World :=
  {| environ := env; cookies_dir := root;
     cookies_at_start := Listable ["loop.json"];
     resolve := linked [(root ++ ["loop.json"], root)];
     worker := fun _ => ExitsOnItsOwn |}.

(** Both credential files are links leading outside. *)
Definition only_links : World :=
  {| environ := env; cookies_dir := root;
     cookies_at_start := Listable ["x.json"; "y.json"];
     resolve := linked [(root ++ ["x.json"], ["tmp"; "x"]);
                        (root ++ ["y.json"], ["tmp"; "y"])];
     worker := fun _ => ExitsOnItsOwn |}.

(** The endpoint variable holds white space only: a space, a no-break
    space (U+00A0), an ideographic space (U+3000) and a tab. *)
Definition blanks : string :=
  string_of_list_ascii
    (map ascii_of_nat ([32; 194; 160; 227; 128; 128; 9] : list nat)).
Definition blank_url : World :=
  {| environ := {[ "CAMOUFOX_INSTANCE_URL" := blanks ]}; cookies_dir := root;
     cookies_at_start := Listable ["alice.json"];
     resolve := plain;
     worker := fun _ => ExitsOnItsOwn |}.

(** No cookies directory yet. *)
Definition no_directory : World :=
  {| environ := env; cookies_dir := root;
     cookies_at_start := Missing;
     resolve := plain;
     worker := fun _ => ExitsOnItsOwn |}.

(** Listing the cookies directory raises. *)
Definition unreadable : World :=
  {| environ := env; cookies_dir := root;
     cookies_at_start := Unlistable "PermissionError";
     resolve := plain;
     worker := fun _ => ExitsOnItsOwn |}.

(** Three credential files; the second worker ignores the signal. *)
Definition stubborn : World :=
  {| environ := env; cookies_dir := root;
     cookies_at_start := Listable ["a.json"; "b.json"; "c.json"];
     resolve := plain;
     worker := fun h => match h with
                        | 1 => IgnoresSignal
                        | _ => RunsUntilSignalled
                        end |}.

End Worlds.

(** * Lemmas *)

(** ** Facts about strings and paths *)

Section StringFacts.

Lemma append_cons a (s t : string) : String a s +:+ t = String a (s +:+ t).
Proof. reflexivity. Qed.

Lemma append_empty_r (s : string) : s +:+ "" = s.
Proof. induction s as [|a s IH]; [reflexivity|]. now rewrite append_cons, IH. Qed.

Lemma append_snoc (a : string) c (b : string) :
  (a +:+ String c "") +:+ b = a +:+ String c b.
Proof. induction a as [|x a IH]; [reflexivity|]. now rewrite !append_cons, IH. Qed.

Lemma append_length (a b : string) :
  String.length (a +:+ b) = String.length a + String.length b.
Proof. induction a as [|x a IH]; [reflexivity|]. rewrite append_cons. simpl. now rewrite IH. Qed.

Lemma endswith_refl s : Str.endswith s s = true.
Proof. destruct s; cbn [Str.endswith]; rewrite String.eqb_refl; reflexivity. Qed.

Lemma endswith_app p s : Str.endswith (p +:+ s) s = true.
Proof.
  induction p as [|c p IH].
  - apply endswith_refl.
  - change (String.eqb (String c (p +:+ s)) s || Str.endswith (p +:+ s) s = true).
    rewrite IH. apply orb_true_r.
Qed.

Lemma endswith_inv s suf :
  Str.endswith s suf = true -> exists p, s = p +:+ suf.
Proof.
  induction s as [|c s IH]; cbn [Str.endswith]; intros H.
  - rewrite orb_false_r in H. apply String.eqb_eq in H. exists "". now subst.
  - apply orb_true_iff in H as [H|H].
    + apply String.eqb_eq in H. exists "". now subst.
    + destruct (IH H) as [p ->]. now exists (String c p).
Qed.

Lemma lower_app a b : Str.lower (a +:+ b) = Str.lower a +:+ Str.lower b.
Proof. induction a as [|c a IH]; simpl; [reflexivity | now rewrite IH]. Qed.

Lemma lower_split c : forall p q,
  Str.lower c = p +:+ q ->
  exists stem suf, c = stem +:+ suf /\ Str.lower stem = p /\ Str.lower suf = q.
Proof.
  induction c as [|a c IH]; intros p q H.
  - destruct p; [|discriminate]. simpl in H. exists "", "". now subst.
  - destruct p as [|b p].
    + exists "", (String a c). simpl in *. auto.
    + simpl in H. injection H as Hb Hc.
      destruct (IH _ _ Hc) as (stem & suf & -> & Hs & Hq).
      exists (String a stem), suf. simpl. now rewrite Hs, Hb.
Qed.

Lemma basename_length p : String.length (Str.basename p) <= String.length p.
Proof.
  induction p as [|c p IH]; simpl; [lia|].
  destruct (Str.has_sep p); [lia|]. destruct (Str.is_sep c); simpl; lia.
Qed.

(** A name is its own base name exactly when it has no separator. *)
Lemma basename_fixed c : Str.basename c = c <-> Str.has_sep c = false.
Proof.
  destruct c as [|a c]; simpl; [tauto|].
  destruct (Str.has_sep c) eqn:Hc.
  - rewrite orb_true_r. split; [|discriminate].
    intros H. pose proof (basename_length c) as Hl.
    rewrite H in Hl. simpl in Hl. lia.
  - rewrite orb_false_r. destruct (Str.is_sep a); [|tauto].
    split; [|discriminate].
    intros H. apply (f_equal String.length) in H. simpl in H. lia.
Qed.

Lemma basename_eqb c :
  String.eqb (Str.basename c) c = negb (Str.has_sep c).
Proof.
  destruct (Str.has_sep c) eqn:Hc; simpl.
  - apply String.eqb_neq. intros H. apply basename_fixed in H. congruence.
  - apply String.eqb_eq. now apply basename_fixed.
Qed.

Lemma pieces_no_sep s : forall cur,
  Str.has_sep s = false -> pieces cur s = [cur +:+ s].
Proof.
  induction s as [|c s IH]; simpl; intros cur H.
  - now rewrite append_empty_r.
  - apply orb_false_iff in H as [Hc Hs].
    now rewrite Hc, (IH _ Hs), append_snoc.
Qed.

Lemma endswith_length s suf :
  Str.endswith s suf = true -> String.length suf <= String.length s.
Proof.
  intros H. destruct (endswith_inv _ _ H) as [p ->].
  rewrite append_length. lia.
Qed.

Lemma lower_length s : String.length (Str.lower s) = String.length s.
Proof. induction s; simpl; congruence. Qed.

(** For a name that passed the first two checks, [cookies_root / name]
    adds exactly that one component. *)
Lemma join_plain_name (root : path) (c : string) :
  Str.has_sep c = false ->
  Str.endswith (Str.lower c) ".json" = true ->
  Path.join root c = root ++ [c].
Proof.
  intros Hs Hj. unfold Path.join, components.
  apply endswith_length in Hj. rewrite lower_length in Hj. simpl in Hj.
  replace (is_absolute c) with false
    by (destruct c; simpl in *; [reflexivity | now apply orb_false_iff in Hs as [-> _]]).
  rewrite (pieces_no_sep _ _ Hs).
  destruct c as [|a [|b c]]; simpl in *; try lia.
  now destruct (Ascii.eqb a ".").
Qed.

Lemma in_prefixes (q p : path) :
  In q (prefixes p) <-> strictly_within q p.
Proof.
  revert q. induction p as [|c p IH]; intros q; simpl.
  - split; [tauto|]. intros (r & Hr & H). destruct q, r; simpl in *; congruence.
  - rewrite in_map_iff. split.
    + intros [<- | (q' & <- & Hq')].
      * exists (c :: p). split; [discriminate | reflexivity].
      * apply IH in Hq' as (r & Hr & ->). exists r. split; [assumption | reflexivity].
    + intros (r & Hr & H). destruct q as [|d q]; [now left|].
      right. simpl in H. injection H as -> ->.
      exists q. split; [reflexivity|]. apply IH. now exists r.
Qed.

(** [root in p.parents] says that [p] lies strictly below [root]. *)
Lemma in_parents (root p : path) :
  root ∈ parents p <-> strictly_within root p.
Proof.
  unfold parents. rewrite list_elem_of_In, <- in_rev. apply in_prefixes.
Qed.

End StringFacts.

(** ** Comparison without regard to case *)

Section CaseFacts.

Lemma is_upper_range a :
  Str.is_upper a = true <-> 65 <= nat_of_ascii a <= 90.
Proof.
  unfold Str.is_upper. rewrite andb_true_iff, !Nat.leb_le. tauto.
Qed.

Lemma lower_char_upper a :
  Str.is_upper a = true ->
  nat_of_ascii (Str.lower_char a) = nat_of_ascii a + 32.
Proof.
  intros H. unfold Str.lower_char. rewrite H.
  apply is_upper_range in H. apply nat_ascii_embedding. lia.
Qed.

Lemma lower_char_not_upper a :
  Str.is_upper a = false -> Str.lower_char a = a.
Proof. intros H. unfold Str.lower_char. now rewrite H. Qed.

Lemma nat_of_ascii_inj a b : nat_of_ascii a = nat_of_ascii b -> a = b.
Proof.
  intros H. rewrite <- (ascii_nat_embedding a), <- (ascii_nat_embedding b).
  now rewrite H.
Qed.

Lemma upper_plus_32_not_upper a b :
  Str.is_upper a = true -> nat_of_ascii b = nat_of_ascii a + 32 ->
  Str.is_upper b = false.
Proof.
  intros Ha Hb. apply is_upper_range in Ha.
  destruct (Str.is_upper b) eqn:E; [|reflexivity].
  apply is_upper_range in E. lia.
Qed.

Lemma same_letter_lower a b :
  same_letter a b -> Str.lower_char a = Str.lower_char b.
Proof.
  intros [-> | [[Hu Hn] | [Hu Hn]]]; [reflexivity | |].
  - rewrite (lower_char_not_upper b) by eauto using upper_plus_32_not_upper.
    apply nat_of_ascii_inj. now rewrite lower_char_upper.
  - rewrite (lower_char_not_upper a) by eauto using upper_plus_32_not_upper.
    apply nat_of_ascii_inj. now rewrite lower_char_upper.
Qed.

Lemma same_letter_lower_char a : same_letter a (Str.lower_char a).
Proof.
  destruct (Str.is_upper a) eqn:E.
  - right; left. split; [assumption | now apply lower_char_upper].
  - left. now rewrite lower_char_not_upper.
Qed.

Lemma case_variant_lower s t :
  case_variant s t -> Str.lower s = Str.lower t.
Proof.
  induction 1 as [|a b s t Hab _ IH]; [reflexivity|].
  simpl. now rewrite (same_letter_lower _ _ Hab), IH.
Qed.

Lemma case_variant_of_lower s : case_variant s (Str.lower s).
Proof.
  induction s as [|a s IH]; simpl; constructor;
    auto using same_letter_lower_char.
Qed.

(** The test of the code is comparison of the ending without regard to
    case. *)
Lemma is_json_spec c : is_json c = true <-> ends_in_json_nocase c.
Proof.
  unfold is_json, ends_in_json_nocase. split.
  - intros H. apply endswith_inv in H as [p Hp].
    apply lower_split in Hp as (stem & suf & -> & _ & Hsuf).
    exists stem, suf. split; [reflexivity|].
    rewrite <- Hsuf. apply case_variant_of_lower.
  - intros (stem & suf & -> & Hcv).
    rewrite lower_app, (case_variant_lower _ _ Hcv).
    apply endswith_app.
Qed.

End CaseFacts.

(** ** Facts about the checks on one profile *)

Section CheckFacts.

Context (w : World) (global_settings : gmap string string).

Lemma merged_cookie_file (profile : gmap string string) c :
  profile !! "cookie_file" = Some c ->
  (profile ∪ global_settings) !! "cookie_file" = Some c.
Proof. intros H. now apply lookup_union_Some_l. Qed.

(** The test of line 105 rejects exactly the names whose resolved path is
    neither strictly within the resolved cookies directory nor that
    directory. *)
Lemma escapes_spec c :
  escapes w c = true <->
  ~ strictly_within (resolve w (cookies_dir w))
      (resolve w (Path.join (resolve w (cookies_dir w)) c))
  /\ resolve w (Path.join (resolve w (cookies_dir w)) c)
     <> resolve w (cookies_dir w).
Proof.
  unfold escapes.
  rewrite andb_true_iff, !bool_decide_eq_true, in_parents. tauto.
Qed.

(** What an accepted profile looks like. *)
Lemma accept_inv profile final_config c :
  check_profile w global_settings profile = Accept final_config c ->
  final_config = profile ∪ global_settings
  /\ final_config !! "cookie_file" = Some c
  /\ is_Some (final_config !! "url")
  /\ name_ok w c = true.
Proof.
  unfold check_profile, name_ok.
  destruct ((profile ∪ global_settings) !! "cookie_file") as [c'|] eqn:Hc;
    [|discriminate].
  destruct ((profile ∪ global_settings) !! "url") as [u|] eqn:Hu;
    [|discriminate].
  rewrite basename_eqb, negb_involutive.
  destruct (Str.has_sep c') eqn:E1; [discriminate|].
  destruct (is_json c') eqn:E2; [|discriminate].
  destruct (escapes w c') eqn:E3; [discriminate|].
  simpl. intros [= <- <-]. rewrite Hu, E1, E2, E3. repeat split; eauto.
Qed.

(** A profile naming [c] is skipped as soon as [c] breaks an invariant. *)
Lemma bad_name_skipped (profile : gmap string string) c :
  profile !! "cookie_file" = Some c ->
  name_ok w c = false ->
  is_skip (check_profile w global_settings profile) = true.
Proof.
  intros Hc Hbad. unfold check_profile.
  rewrite (merged_cookie_file _ _ Hc).
  destruct ((profile ∪ global_settings) !! "url"); [|reflexivity].
  rewrite basename_eqb, negb_involutive. unfold name_ok in Hbad.
  destruct (Str.has_sep c); [reflexivity|].
  destruct (is_json c); [|reflexivity].
  destruct (escapes w c); [reflexivity | discriminate].
Qed.

(** With the endpoint among the settings, a profile made by discovery is
    accepted exactly when its name keeps the invariants. *)
Lemma discovered_verdict (f url : string) :
  global_settings !! "url" = Some url ->
  check_profile w global_settings {["cookie_file" := f]} =
    if name_ok w f
    then Accept (<["cookie_file" := f]> global_settings) f
    else Skip ERROR (if Str.has_sep f then NameCarriesPath f
                     else if is_json f then OutsideCookies f
                     else NotJson f).
Proof.
  intros Hu. unfold check_profile, name_ok.
  rewrite (merged_cookie_file _ f) by apply lookup_singleton_eq.
  rewrite (lookup_union_r _ _ "url") by now apply lookup_singleton_ne.
  rewrite Hu, basename_eqb, negb_involutive.
  rewrite <- insert_union_singleton_l.
  destruct (Str.has_sep f); [reflexivity|].
  destruct (is_json f); [|reflexivity].
  now destruct (escapes w f).
Qed.

(** [name_ok] tests the three invariants, the third as line 105 keeps
    it. *)
Lemma credential_ok_spec f : credential_ok w f <-> name_ok w f = true.
Proof.
  unfold credential_ok, name_ok, escapes.
  rewrite !andb_true_iff, !negb_true_iff, andb_false_iff.
  rewrite !bool_decide_eq_false, <- is_json_spec, basename_fixed.
  split.
  - intros (Hb & Hj & [Hin | Heq]); repeat split; auto.
    left. intros Hno. apply Hno. now apply in_parents.
  - intros ((Hb & Hj) & [Hin | Heq]); repeat split; auto.
    + left. apply in_parents. now apply dec_stable.
    + right. now apply dec_stable.
Qed.

Lemma strictly_within_neq (root p : path) : strictly_within root p -> p <> root.
Proof.
  intros (rest & Hrest & ->) E. apply Hrest.
  apply (f_equal (@length string)) in E. rewrite length_app in E.
  destruct rest; [reflexivity | simpl in E; lia].
Qed.

(** The invariants of the specification are those of the code without the
    names that resolve to the cookies directory itself. *)
Lemma credential_strict_spec f :
  credential_strict w f <->
  name_ok w f = true
  /\ resolve w (Path.join (resolve w (cookies_dir w)) f)
     <> resolve w (cookies_dir w).
Proof.
  rewrite <- credential_ok_spec. unfold credential_strict, credential_ok.
  split.
  - intros (Hb & Hj & Hin). repeat split; auto.
    now apply strictly_within_neq.
  - intros ((Hb & Hj & [Hin | Heq]) & Hne); [auto | contradiction].
Qed.

Lemma picks_filter {A} (P : A -> Prop) (f : A -> bool) l l' :
  (forall x, P x <-> f x = true) -> picks P l l' -> l' = List.filter f l.
Proof.
  intros Hf. induction 1 as [|x l l' Hx _ IH|x l l' Hx _ IH]; simpl.
  - reflexivity.
  - apply Hf in Hx. now rewrite Hx, IH.
  - destruct (f x) eqn:E; [|exact IH]. now apply Hf in E.
Qed.

End CheckFacts.

(** ** Facts about the launch loop *)

Section LaunchFacts.

Context (w : World) (global_settings : gmap string string) (n : nat).

Local Abbreviation check := (check_profile w global_settings).
Local Abbreviation one_script' := (one_script w global_settings n).
Local Abbreviation script' := (script w global_settings n).
Local Abbreviation accepted' := (accepted w global_settings).
Local Abbreviation launch_one' := (launch_one w global_settings n).
Local Abbreviation launch' := (launch w global_settings n).

Lemma spawned_app a b : spawned (a ++ b) = spawned a ++ spawned b.
Proof.
  induction a as [|e a IH]; [reflexivity|].
  destruct e; simpl; rewrite ?IH; reflexivity.
Qed.

Lemma pace_view_app a b : pace_view (a ++ b) = pace_view a ++ pace_view b.
Proof.
  induction a as [|e a IH]; [reflexivity|].
  destruct e; simpl; rewrite ?IH; reflexivity.
Qed.

Lemma resolve_raises_broken s profile :
  resolve_raises w s global_settings profile = true -> broken s <> [].
Proof.
  unfold resolve_raises. destruct (resolved_candidate _ _); [|discriminate].
  intros H E. rewrite E in H.
  rewrite !bool_decide_eq_false_2 in H by apply not_elem_of_nil.
  discriminate.
Qed.

(** One pass of the loop body. *)
Lemma launch_one_run i profile processes s :
  match launch_one' i profile processes s with
  | (Done ps, s') =>
      ps = processes ++ seq (length processes) (started (check profile))
      /\ trace s' = trace s ++ one_script' i profile (length processes)
      /\ (pending s = None -> pending s' = None)
      /\ signalled s' = signalled s /\ cookies s' = cookies s
      /\ later s' = later s /\ broken s' = broken s
  | (Raised KeyboardInterrupt, s') =>
      pending s <> None /\ (later s = [] -> pending s' = None)
      /\ signalled s' = signalled s /\ cookies s' = cookies s
      /\ exists pre,
           one_script' i profile (length processes) = pre ++ [ESleep 30]
           /\ trace s' = trace s ++ pre ++ [EInterrupt]
  | (Raised RuntimeError, s') => broken s <> [] /\ s' = s
  | (Blocked, _) => False
  end.
Proof.
  unfold launch_one, one_script, started.
  destruct (resolve_raises w s global_settings profile) eqn:Hr.
  { split; [eapply resolve_raises_broken, Hr | reflexivity]. }
  destruct (check profile) as [cfg c | l m]; simpl.
  - destruct (Nat.ltb i n); simpl.
    + unfold mbind, M_bind, bind, log, act, sleep, blocking; simpl.
      destruct (pending s) as [[|m]|] eqn:Hp; simpl.
      * split; [discriminate|]. split; [now intros ->|].
        split; [reflexivity|]. split; [reflexivity|].
        exists [ELog INFO (Starting i n c);
                ESpawn (length processes) cfg; ELog INFO Waiting30].
        split; [reflexivity|]. now rewrite <- !app_assoc.
      * rewrite <- !app_assoc. repeat split; congruence.
      * rewrite <- !app_assoc. repeat split; congruence.
    + unfold mbind, M_bind, bind, log, act; simpl.
      rewrite <- !app_assoc. repeat split; congruence.
  - unfold mbind, M_bind, bind, log, act; simpl.
    rewrite app_nil_r. repeat split; congruence.
Qed.

(** The whole loop: either it runs its script' to the end, or Ctrl+C cuts
    the script' short at one of its waits, or a path that cannot be resolved
    ends it between two passes. *)
Lemma launch_run profiles : forall i processes s,
  match launch' i profiles processes s with
  | (Done ps, s') =>
      ps = processes ++ seq (length processes) (length (accepted' profiles))
      /\ trace s' = trace s ++ script' i profiles (length processes)
      /\ (pending s = None -> pending s' = None)
      /\ signalled s' = signalled s /\ cookies s' = cookies s
      /\ later s' = later s /\ broken s' = broken s
  | (Raised KeyboardInterrupt, s') =>
      pending s <> None /\ (later s = [] -> pending s' = None)
      /\ signalled s' = signalled s /\ cookies s' = cookies s
      /\ exists pre post,
           script' i profiles (length processes) = pre ++ ESleep 30 :: post
           /\ trace s' = trace s ++ pre ++ [EInterrupt]
  | (Raised RuntimeError, s') =>
      broken s <> []
      /\ exists pre post,
           script' i profiles (length processes) = pre ++ post
           /\ trace s' = trace s ++ pre
  | (Blocked, _) => False
  end.
Proof.
  induction profiles as [|profile rest IH]; intros i processes s.
  - simpl. rewrite !app_nil_r. auto 10.
  - cbn [launch script accepted].
    unfold mbind, M_bind, bind.
    pose proof (launch_one_run i profile processes s) as H1.
    destruct (launch_one' i profile processes s) as [[ps1| [|] |] s1];
      [| | |contradiction].
    + destruct H1 as (-> & Ht1 & Hp1 & Hs1 & Hc1 & Hl1 & Hb1).
      specialize (IH (S i) (processes ++ seq (length processes)
                              (started (check profile))) s1).
      rewrite length_app, length_seq in IH.
      destruct (launch' (S i) rest _ s1) as [[ps2| [|] |] s2];
        [| | |contradiction].
      * destruct IH as (-> & Ht2 & Hp2 & Hs2 & Hc2 & Hl2 & Hb2).
        rewrite Ht2, Ht1, <- !app_assoc.
        repeat split; try congruence; auto.
        unfold started. destruct (check profile); simpl;
          [now rewrite Nat.add_1_r | now rewrite Nat.add_0_r].
      * destruct IH as (Hn & Hp2 & Hs2 & Hc2 & pre & post & Hsc & Ht2).
        split; [intros Hnone; apply Hn; auto|].
        split; [intros Hl; apply Hp2; congruence|].
        split; [congruence|]. split; [congruence|].
        exists (one_script' i profile (length processes) ++ pre), post.
        rewrite Hsc, Ht2, Ht1, <- !app_assoc. auto.
      * destruct IH as (Hb & pre & post & Hsc & Ht2).
        split; [congruence|].
        exists (one_script' i profile (length processes) ++ pre), post.
        rewrite Hsc, Ht2, Ht1, <- !app_assoc. auto.
    + destruct H1 as (Hn & Hp1 & Hs1 & Hc1 & pre & Hsc & Ht1).
      split; [assumption|]. split; [assumption|].
      split; [assumption|]. split; [assumption|].
      exists pre, (script' (S i) rest
                     (length processes + started (check profile))).
      rewrite Hsc, <- app_assoc. auto.
    + destruct H1 as (Hb & ->). split; [assumption|].
      exists [], (one_script' i profile (length processes)
                  ++ script' (S i) rest
                       (length processes + started (check profile))).
      split; [reflexivity | now rewrite app_nil_r].
Qed.

(** *** The uninterrupted script *)

Lemma spawned_one_script i profile k :
  spawned (one_script' i profile k) = accepted' [profile].
Proof.
  unfold one_script. simpl.
  destruct (check profile); [|reflexivity].
  now destruct (Nat.ltb i n).
Qed.

Lemma spawned_script profiles : forall i k,
  spawned (script' i profiles k) = accepted' profiles.
Proof.
  induction profiles as [|profile rest IH]; intros i k; [reflexivity|].
  cbn [script]. rewrite spawned_app, spawned_one_script, IH.
  simpl. now destruct (check profile).
Qed.

Lemma skip_event profile l m :
  check profile = Skip l m -> launch_event (ELog l m).
Proof.
  unfold check_profile.
  destruct (_ !! "cookie_file"); [|intros [= <- <-]; exact I].
  destruct (_ !! "url"); [|intros [= <- <-]; exact I].
  destruct (negb _); [intros [= <- <-]; exact I|].
  destruct (negb _); [intros [= <- <-]; exact I|].
  destruct (escapes _ _); [intros [= <- <-]; exact I | discriminate].
Qed.

Lemma script_events profiles : forall i k,
  Forall launch_event (script' i profiles k).
Proof.
  induction profiles as [|profile rest IH]; intros i k; [constructor|].
  cbn [script]. apply Forall_app. split; [|apply IH].
  unfold one_script.
  destruct (check profile) as [cfg c|l m] eqn:E.
  - destruct (Nat.ltb i n); repeat constructor.
  - repeat constructor. eapply skip_event, E.
Qed.

(** Only rejections: the script' is one log line per profile. *)
Lemma script_all_skipped profiles : forall i k,
  Forall (fun p => is_skip (check p) = true) profiles ->
  accepted' profiles = []
  /\ pace_view (script' i profiles k) = []
  /\ Forall (fun e => exists l m, e = ELog l m) (script' i profiles k).
Proof.
  induction profiles as [|profile rest IH]; intros i k H.
  - repeat split; constructor.
  - inversion H as [|? ? Hp Hrest]; subst.
    destruct (IH (S i) (k + started (check profile)) Hrest)
      as (Ha & Hv & Hl).
    cbn [script accepted].
    unfold one_script.
    destruct (check profile) as [|l m]; [discriminate|].
    simpl. repeat split; auto. constructor; eauto.
Qed.

(** The script' is paced, when it covers the list to its end. *)
Lemma script_paced profiles : forall i k,
  i + length profiles = S n ->
  paced (pace_view (script' i profiles k)).
Proof.
  induction profiles as [|profile rest IH]; intros i k Hlen; [constructor|].
  cbn [script]. rewrite pace_view_app.
  simpl in Hlen.
  assert (Hrest : paced (pace_view (script' (S i) rest
                           (k + started (check profile)))))
    by (apply IH; lia).
  unfold one_script.
  destruct (check profile) as [cfg c|l m]; [|exact Hrest].
  destruct (Nat.ltb i n) eqn:Hlt; simpl.
  - now constructor.
  - apply Nat.ltb_ge in Hlt.
    destruct rest; [constructor | simpl in Hlen; lia].
Qed.

End LaunchFacts.

(** ** Paced sequences *)

Section PacedFacts.

Lemma paced_head l : paced l -> l = [] \/ exists r, l = PSpawn :: r.
Proof. destruct 1; eauto. Qed.

Lemma paced_prefix l : paced l -> forall a b, l = a ++ b -> paced a.
Proof.
  induction 1 as [| |rest _ IH]; intros a b E.
  - destruct a; [constructor | discriminate].
  - destruct a as [|x [|y a]]; try discriminate; [constructor|].
    injection E as Hx _. subst x. constructor.
  - destruct a as [|x [|y a]]; [constructor| |].
    + injection E as Hx _. subst x. constructor.
    + injection E as Hx Hy E. subst x y. constructor. eapply IH, E.
Qed.

(** A wait lasts 30 seconds and comes right after a spawn. *)
Lemma paced_before_wait l : paced l -> forall a secs b,
  l = a ++ PSleep secs :: b -> secs = 30 /\ exists a', a = a' ++ [PSpawn].
Proof.
  induction 1 as [| |rest _ IH]; intros a secs b E.
  - destruct a; discriminate.
  - destruct a as [|x [|y a]]; discriminate.
  - destruct a as [|x [|y a]]; [discriminate| |].
    + injection E as Hx Hs _. subst x secs.
      split; [reflexivity | now exists []].
    + injection E as Hx Hy E. subst x y.
      destruct (IH _ _ _ E) as [Hs [a' Ha]]. subst secs a.
      split; [reflexivity|]. now exists (PSpawn :: PSleep 30 :: a').
Qed.

(** Between two spawns with no spawn in between there is exactly one wait
    of 30 seconds. *)
Lemma paced_between l : paced l -> forall a mid b,
  l = a ++ PSpawn :: mid ++ PSpawn :: b ->
  ~ In PSpawn mid -> mid = [PSleep 30].
Proof.
  induction 1 as [| |rest Hrest IH]; intros a mid b E Hmid.
  - destruct a; discriminate.
  - destruct a as [|x [|y a]]; try discriminate.
    injection E as E. destruct mid; discriminate.
  - destruct a as [|x [|y a]].
    + injection E as E. destruct mid as [|x mid]; [discriminate|].
      injection E as Hx E. subst x. f_equal.
      destruct mid as [|y mid]; [reflexivity|]. exfalso.
      destruct (paced_head _ Hrest) as [Hnil | [r Hr]]; subst rest;
        [discriminate|].
      injection Hr as Hy _. subst y. apply Hmid. right; now left.
    + injection E as _ E. discriminate.
    + injection E as Hx Hy E. subst x y. eapply IH; eauto.
Qed.

Lemma pace_view_no_spawn tr : spawned tr = [] -> ~ In PSpawn (pace_view tr).
Proof.
  induction tr as [|e tr IH]; simpl; [tauto|].
  destruct e; simpl; try assumption; try discriminate.
  intros H [E|Hin]; [discriminate | now apply IH].
Qed.

End PacedFacts.

(** ** Facts about waiting for the workers *)

Section SuperviseFacts.

Context (w : World).

(** The join loop of lines 128-129. *)
Lemma join_all_run processes : forall s,
  match join_all w processes s with
  | (Done _, s') =>
      trace s' = trace s ++ map EJoin processes
  | (Raised KeyboardInterrupt, s') =>
      pending s <> None /\ (later s = [] -> pending s' = None)
      /\ exists joined, trace s' = trace s ++ map EJoin joined ++ [EInterrupt]
  | (Raised RuntimeError, _) => False
  | (Blocked, s') =>
      pending s = None
      /\ exists joined, trace s' = trace s ++ map EJoin joined
  end.
Proof.
  induction processes as [|h rest IH]; intros s.
  - simpl. now rewrite app_nil_r.
  - cbn [join_all]. unfold mbind, M_bind, bind, join_process, blocking, stuck.
    destruct (exits w s h).
    + destruct (pending s) as [[|m]|] eqn:Hp; simpl.
      * split; [discriminate|]. split; [now intros ->|]. now exists [].
      * specialize (IH (emit (EJoin h) (set_pending (Some m) s))).
        destruct (join_all w rest _) as [[[]|[|]|] s']; [| |contradiction|].
        -- rewrite IH. simpl. now rewrite <- app_assoc.
        -- destruct IH as (_ & Hn & joined & Ht).
           split; [discriminate|]. split; [exact Hn|].
           exists (h :: joined). rewrite Ht. simpl. now rewrite <- app_assoc.
        -- destruct IH as [Hn _]. discriminate.
      * specialize (IH (emit (EJoin h) s)).
        destruct (join_all w rest _) as [[[]|[|]|] s']; [| |contradiction|].
        -- rewrite IH. simpl. now rewrite <- app_assoc.
        -- destruct IH as (Hn & _). simpl in Hn. congruence.
        -- destruct IH as [_ [joined Ht]]. split; [reflexivity|].
           exists (h :: joined). rewrite Ht. simpl. now rewrite <- app_assoc.
    + destruct (pending s) as [m|] eqn:Hp; simpl.
      * split; [discriminate|]. split; [now intros ->|]. now exists [].
      * split; [reflexivity|]. exists []. simpl. now rewrite app_nil_r.
Qed.

(** The sweep of lines 132-134 when no Ctrl+C is due: it cannot be
    interrupted, signals and then awaits each handle in turn, and stalls
    only at a worker that ignores the signal. *)
Lemma terminate_all_run processes : forall s,
  pending s = None ->
  match terminate_all w processes s with
  | (Done _, s') =>
      trace s' = trace s ++ sweep processes /\ pending s' = None
  | (Raised _, _) => False
  | (Blocked, s') =>
      exists done h,
        In h processes /\ worker w h = IgnoresSignal
        /\ trace s' = trace s ++ sweep done ++ [ETerminate h]
  end.
Proof.
  induction processes as [|h rest IH]; intros s Hp.
  - simpl. now rewrite app_nil_r.
  - cbn [terminate_all].
    unfold mbind, M_bind, bind, terminate, join_process, blocking, stuck, exits.
    simpl. rewrite Hp.
    destruct (worker w h) eqn:Hw.
    + specialize (IH (swept_one h s) Hp).
      unfold swept_one, emit in *. simpl in *. rewrite Hp in *.
      destruct (terminate_all w rest _) as [[[]|[|]|] s'];
        [| contradiction | contradiction |].
      * destruct IH as [Ht Hn]. rewrite Ht, <- !app_assoc. now split.
      * destruct IH as (done & h' & Hin & Hw' & Ht).
        exists (h :: done), h'. rewrite Ht, <- !app_assoc. auto.
    + rewrite bool_decide_eq_true_2 by (left).
      specialize (IH (swept_one h s) Hp).
      unfold swept_one, emit in *. simpl in *. rewrite Hp in *.
      destruct (terminate_all w rest _) as [[[]|[|]|] s'];
        [| contradiction | contradiction |].
      * destruct IH as [Ht Hn]. rewrite Ht, <- !app_assoc. now split.
      * destruct IH as (done & h' & Hin & Hw' & Ht).
        exists (h :: done), h'. rewrite Ht, <- !app_assoc. auto.
    + exists [], h. simpl. auto.
Qed.

Lemma terminate_all_obeyed processes : forall s,
  pending s = None ->
  Forall (fun h => worker w h <> IgnoresSignal) processes ->
  fst (terminate_all w processes s) = Done tt.
Proof.
  intros s Hp Hall. pose proof (terminate_all_run processes s Hp) as H.
  destruct (terminate_all w processes s) as [[[]|e|] s'];
    [reflexivity | contradiction |].
  destruct H as (done & h & Hin & Hw & _).
  rewrite List.Forall_forall in Hall. now apply Hall in Hin.
Qed.

Lemma sweep_events processes : Forall supervise_event (sweep processes).
Proof. induction processes; simpl; repeat constructor; assumption. Qed.

Lemma joins_events processes : Forall supervise_event (map EJoin processes).
Proof. induction processes; simpl; repeat constructor; assumption. Qed.

End SuperviseFacts.

(** ** Every run has one of the shapes *)

Section MainFacts.

Context (w : World) (ctrl_c : option nat).

(** The handler of lines 131-135, entered with no further Ctrl+C due. *)
Lemma handler_run processes s :
  pending s = None ->
  match (log INFO CaughtCtrlC;; terminate_all w processes;;
         log INFO AllTerminated) s with
  | (Done _, s') =>
      trace s' = trace s ++ [ELog INFO CaughtCtrlC] ++ sweep processes
                 ++ [ELog INFO AllTerminated]
  | (Raised _, _) => False
  | (Blocked, s') =>
      exists swept h,
        In h processes /\ worker w h = IgnoresSignal
        /\ trace s' = trace s ++ [ELog INFO CaughtCtrlC] ++ sweep swept
                      ++ [ETerminate h]
  end.
Proof.
  intros Hp. unfold mbind, M_bind, bind, log, act.
  pose proof (terminate_all_run w processes (emit (ELog INFO CaughtCtrlC) s) Hp)
    as H.
  destruct (terminate_all w processes _) as [[[]|e|] s1]; [|contradiction|].
  - destruct H as [Ht _]. simpl. rewrite Ht. simpl.
    now rewrite <- !app_assoc.
  - destruct H as (swept & h & Hin & Hw & Ht).
    exists swept, h. rewrite Ht. simpl. now rewrite <- !app_assoc.
Qed.

(** With an endpoint and at least one credential file, [main] reaches its
    launch loop. *)
Lemma main_launching_with more unresolvable url :
  shared_url w = Some url -> cookie_files w <> [] ->
  run_main_with w ctrl_c more unresolvable =
  after_launch w
    (launch w (global_settings_of w url) (length (main_profiles w)) 1
            (main_profiles w) []
            (launch_state_with w ctrl_c more unresolvable url)).
Proof.
  intros Hurl Hne.
  unfold run_main_with, main, load_instances_from_env, launch_state_with,
    discovery_trace, main_profiles.
  unfold shared_url in Hurl. rewrite Hurl.
  unfold cookie_files in *.
  destruct (cookies_at_start w) as [|names|err] eqn:Hdir; try contradiction.
  unfold start_with. rewrite Hdir.
  destruct (List.filter is_json names) as [|f fs] eqn:Hfiles;
    [contradiction|].
  unfold mbind, M_bind, bind, mret, M_ret, ret, makedirs, log, act, isdir,
    listdir.
  cbn -[launch]. rewrite Hfiles. reflexivity.
Qed.

Lemma main_launching url :
  shared_url w = Some url -> cookie_files w <> [] ->
  run_main w ctrl_c =
  after_launch w
    (launch w (global_settings_of w url) (length (main_profiles w)) 1
            (main_profiles w) [] (launch_state w ctrl_c url)).
Proof. apply main_launching_with. Qed.

(** [main] always runs in one of the shapes of [main_run]. *)
Lemma run_main_shape out s :
  run_main w ctrl_c = (out, s) -> main_run w ctrl_c out (trace s).
Proof.
  destruct (shared_url w) as [url|] eqn:Hurl.
  2:{ unfold run_main, main, load_instances_from_env.
      unfold shared_url in Hurl. rewrite Hurl.
      intros [= <- <-]. now apply run_no_url. }
  destruct (cookie_files w) as [|f fs] eqn:Hcf.
  { unfold run_main, main, load_instances_from_env.
    pose proof Hurl as Hurl'. unfold shared_url in Hurl'. rewrite Hurl'.
    unfold start, start_with, mbind, M_bind, bind, makedirs, log, act, isdir,
      listdir.
    unfold cookie_files in Hcf.
    destruct (cookies_at_start w) as [|names|err] eqn:Hdir; simpl.
    - intros [= <- <-]. eapply run_no_files; try eassumption; [congruence|].
      unfold cookie_files. now rewrite Hdir.
    - rewrite Hcf. simpl. intros [= <- <-].
      eapply run_no_files; try eassumption; [congruence|].
      unfold cookie_files. now rewrite Hdir.
    - intros [= <- <-]. eapply run_unlistable; eassumption. }
  assert (Hne : cookie_files w <> []) by (rewrite Hcf; discriminate).
  clear f fs Hcf.
  rewrite (main_launching url Hurl Hne).
  pose proof (launch_run w (global_settings_of w url)
                (length (main_profiles w)) (main_profiles w)
                1 [] (launch_state w ctrl_c url)) as HL.
  change (length (@nil handle)) with 0 in HL.
  fold (main_script w url) in HL. fold (main_accepted w url) in HL.
  change (trace (launch_state w ctrl_c url)) with (discovery_trace w url) in HL.
  change (pending (launch_state w ctrl_c url)) with ctrl_c in HL.
  change (later (launch_state w ctrl_c url)) with (@nil nat) in HL.
  change (broken (launch_state w ctrl_c url)) with (@nil path) in HL.
  destruct (launch w _ _ 1 _ [] _) as [[ps|[|]|] s1];
    [| | now destruct HL as [[] _] | contradiction].
  - destruct HL as (Hps & Ht & Hp & _ & _ & Hl1 & _). simpl in Hps.
    fold (main_handles w url) in Hps. unfold after_launch.
    destruct ps as [|p ps'].
    + intros [= <- <-]. simpl. rewrite Ht.
      apply (run_none_valid w ctrl_c url); try assumption.
      unfold main_handles in Hps.
      destruct (main_accepted w url); [reflexivity | discriminate].
    + assert (Hacc : main_accepted w url <> []).
      { intros E. unfold main_handles in Hps. rewrite E in Hps.
        discriminate. }
      assert (Hlen : length (p :: ps') = length (main_accepted w url))
        by (rewrite Hps; unfold main_handles; now rewrite length_seq).
      rewrite Hlen, Hps. unfold supervise, try_except.
      unfold mbind at 1, M_bind at 1, bind at 1. unfold log at 1. unfold act.
      set (s2 := emit _ s1).
      assert (Ht2 : trace s2 = discovery_trace w url ++ main_script w url
                ++ [ELog INFO (AllStarted (length (main_accepted w url)))])
        by (subst s2; simpl; now rewrite Ht, <- app_assoc).
      assert (Hp2 : ctrl_c = None -> pending s2 = None) by exact Hp.
      pose proof (join_all_run w (main_handles w url) s2) as HJ.
      destruct (join_all w (main_handles w url) s2) as [[[]|[|]|] s3];
        [| | contradiction |].
      * intros [= <- <-]. rewrite HJ, Ht2, <- !app_assoc.
        now apply run_all_exited.
      * destruct HJ as (Hn2 & Hp3 & joined & Ht3).
        assert (Hc : ctrl_c <> None) by (intros E; auto).
        pose proof (handler_run (main_handles w url) s3 (Hp3 Hl1)) as HH.
        destruct ((log INFO CaughtCtrlC;; terminate_all w (main_handles w url);;
                   log INFO AllTerminated) s3) as [[[]|e|] s4];
          [|contradiction|].
        -- intros [= <- <-]. rewrite HH, Ht3, Ht2, <- !app_assoc.
           now apply run_swept.
        -- destruct HH as (swept & h & Hin & Hw & Ht4).
           intros [= <- <-]. rewrite Ht4, Ht3, Ht2, <- !app_assoc.
           now apply run_sweep_stalled.
      * destruct HJ as (_ & joined & Ht3). intros [= <- <-].
        rewrite Ht3, Ht2, <- !app_assoc. now apply run_waiting.
  - destruct HL as (Hc & _ & _ & _ & pre & post & Hsc & Ht).
    intros [= <- <-]. rewrite Ht.
    now apply (run_interrupted_pacing w ctrl_c url pre post).
Qed.

End MainFacts.

(** ** What a run spawns and when it waits *)

Section ViewFacts.

Lemma spawned_joins l : spawned (map EJoin l) = [].
Proof. induction l; simpl; auto. Qed.

Lemma spawned_sweep l : spawned (sweep l) = [].
Proof. induction l; simpl; auto. Qed.

Lemma pace_view_joins l : pace_view (map EJoin l) = [].
Proof. induction l; simpl; auto. Qed.

Lemma pace_view_sweep l : pace_view (sweep l) = [].
Proof. induction l; simpl; auto. Qed.

Lemma started_handles_app a b :
  started_handles (a ++ b) = started_handles a ++ started_handles b.
Proof.
  induction a as [|e a IH]; [reflexivity|].
  destruct e; simpl; rewrite ?IH; reflexivity.
Qed.

Lemma in_pace_view secs tr : In (ESleep secs) tr -> In (PSleep secs) (pace_view tr).
Proof.
  induction tr as [|e tr IH]; simpl; [tauto|].
  intros [->|H]; [now left|].
  destruct e; simpl; auto.
Qed.

Lemma accepted_app w gs a b :
  accepted w gs (a ++ b) = accepted w gs a ++ accepted w gs b.
Proof.
  induction a as [|p a IH]; [reflexivity|].
  simpl. destruct (check_profile w gs p); simpl; now rewrite IH.
Qed.

(** Every accepted configuration names a file that keeps the invariants. *)
Lemma accepted_names w gs profiles cfg :
  In cfg (accepted w gs profiles) ->
  exists c, cfg !! "cookie_file" = Some c /\ name_ok w c = true
            /\ is_Some (cfg !! "url").
Proof.
  induction profiles as [|p rest IH]; simpl; [tauto|].
  destruct (check_profile w gs p) as [cfg' c|] eqn:E; [|exact IH].
  intros [<-|H]; [|auto].
  apply accept_inv in E as (_ & Hc & Hu & Hok). eauto.
Qed.

Lemma started_handles_script w gs n profiles : forall i k,
  started_handles (script w gs n i profiles k)
  = seq k (length (accepted w gs profiles)).
Proof.
  induction profiles as [|p rest IH]; intros i k; [reflexivity|].
  cbn [script accepted]. rewrite started_handles_app, IH.
  unfold one_script, started.
  destruct (check_profile w gs p); simpl.
  - rewrite Nat.add_1_r. now destruct (Nat.ltb i n).
  - now rewrite Nat.add_0_r.
Qed.

(** The launch loop run by itself: what it spawns is a prefix of what the
    checks accept, all of it when no Ctrl+C is scheduled, and its spawns and
    waits are paced. *)
Lemma launch_trace_run w gs profiles ctrl_c :
  paced (pace_view (launch_trace w gs profiles ctrl_c))
  /\ (exists rest, accepted w gs profiles
                   = spawned (launch_trace w gs profiles ctrl_c) ++ rest)
  /\ (ctrl_c = None ->
      spawned (launch_trace w gs profiles ctrl_c) = accepted w gs profiles).
Proof.
  unfold launch_trace.
  pose proof (launch_run w gs (length profiles) profiles 1 [] (start w ctrl_c))
    as H.
  pose proof (script_paced w gs (length profiles) profiles 1 0 eq_refl) as Hp.
  change (length (@nil handle)) with 0 in H.
  destruct (launch w gs _ 1 profiles [] _) as [[ps|[|]|] s];
    [| | now destruct H as [[] _] | contradiction].
  - destruct H as (_ & Ht & _). simpl in *. rewrite Ht, spawned_script.
    repeat split; auto. exists []. now rewrite app_nil_r.
  - destruct H as (Hc & _ & _ & _ & pre & post & Hsc & Ht).
    simpl in *. rewrite Ht, spawned_app, pace_view_app. simpl.
    rewrite !app_nil_r. rewrite Hsc, pace_view_app in Hp.
    repeat split.
    + eapply paced_prefix; [exact Hp | reflexivity].
    + exists (spawned post).
      now rewrite <- (spawned_script w gs (length profiles) profiles 1 0),
        Hsc, spawned_app.
    + intros ->. contradiction.
Qed.

Lemma global_settings_url w url :
  global_settings_of w url !! "url" = Some url.
Proof.
  unfold global_settings_of.
  destruct (_clean_env_value (getenv w "CAMOUFOX_PROXY")).
  - rewrite lookup_insert_ne by discriminate. apply lookup_insert_eq.
  - apply lookup_insert_eq.
Qed.

(** What [main] accepts: the discovered names that keep the invariants,
    each merged into the global settings. *)
Lemma accepted_discovered w gs url names :
  gs !! "url" = Some url ->
  accepted w gs (map profile_of names)
  = map (fun f => <["cookie_file" := f]> gs) (List.filter (name_ok w) names).
Proof.
  intros Hu. induction names as [|f names IH]; [reflexivity|].
  simpl. unfold profile_of at 1. rewrite (discovered_verdict w gs f url Hu).
  destruct (name_ok w f); simpl; now rewrite IH.
Qed.

Lemma filter_name_ok_json w names :
  List.filter (name_ok w) (List.filter is_json names)
  = List.filter (name_ok w) names.
Proof.
  induction names as [|f names IH]; [reflexivity|].
  simpl. destruct (is_json f) eqn:E; simpl; rewrite IH; [reflexivity|].
  unfold name_ok. rewrite E. now rewrite andb_false_r.
Qed.

(** The spawns and waits of a run of [main], shape by shape. *)
Lemma main_run_views w ctrl_c out tr :
  main_run w ctrl_c out tr ->
  (out = Done tt /\ spawned tr = [] /\ pace_view tr = []
   /\ started_handles tr = []
   /\ (shared_url w = None \/ cookie_files w = []))
  \/ exists url,
       shared_url w = Some url /\ cookie_files w <> []
       /\ ((out = Raised KeyboardInterrupt /\ ctrl_c <> None
            /\ exists pre post,
                 main_script w url = pre ++ ESleep 30 :: post
                 /\ spawned tr = spawned pre
                 /\ pace_view tr = pace_view pre)
           \/ (out <> Raised KeyboardInterrupt
               /\ spawned tr = main_accepted w url
               /\ pace_view tr = pace_view (main_script w url)
               /\ started_handles tr = main_handles w url)).
Proof.
  assert (Hview : forall url rest,
    spawned rest = [] -> pace_view rest = [] -> started_handles rest = [] ->
    spawned (discovery_trace w url ++ main_script w url ++ rest)
      = main_accepted w url
    /\ pace_view (discovery_trace w url ++ main_script w url ++ rest)
      = pace_view (main_script w url)
    /\ started_handles (discovery_trace w url ++ main_script w url ++ rest)
      = main_handles w url).
  { intros url rest H1 H2 H3.
    rewrite !spawned_app, !pace_view_app, !started_handles_app, H1, H2, H3.
    simpl. rewrite !app_nil_r. unfold main_script, main_handles, main_accepted.
    now rewrite spawned_script, started_handles_script. }
  destruct 1 as [ | url err ? Hdir | | | | | | | ].
  - left. simpl. repeat split; auto.
  - left. simpl. unfold cookie_files. rewrite Hdir. repeat split; auto.
  - left. simpl. repeat split; auto.
  - right. exists url. repeat split; try assumption. left.
    repeat split; try assumption. exists pre, post.
    rewrite !spawned_app, !pace_view_app. simpl. now rewrite !app_nil_r.
  - right. exists url. repeat split; try assumption. right.
    split; [discriminate|]. now apply Hview.
  - right. exists url. repeat split; try assumption. right.
    split; [discriminate|]. apply Hview; simpl;
      auto using spawned_joins, pace_view_joins.
    induction (main_handles w url); simpl; auto.
  - right. exists url. repeat split; try assumption. right.
    split; [discriminate|]. apply Hview; simpl;
      auto using spawned_joins, pace_view_joins.
    induction joined; simpl; auto.
  - right. exists url. repeat split; try assumption. right.
    split; [discriminate|]. apply Hview; simpl.
    + rewrite spawned_app, spawned_joins. simpl.
      now rewrite spawned_app, spawned_sweep.
    + rewrite pace_view_app, pace_view_joins. simpl.
      now rewrite pace_view_app, pace_view_sweep.
    + rewrite started_handles_app. simpl. rewrite started_handles_app.
      replace (started_handles (map EJoin joined)) with (@nil handle)
        by (induction joined; simpl; auto).
      replace (started_handles (sweep (main_handles w url))) with (@nil handle)
        by (induction (main_handles w url); simpl; auto).
      reflexivity.
  - right. exists url. repeat split; try assumption. right.
    split; [discriminate|]. apply Hview; simpl.
    + rewrite spawned_app, spawned_joins. simpl.
      now rewrite spawned_app, spawned_sweep.
    + rewrite pace_view_app, pace_view_joins. simpl.
      now rewrite pace_view_app, pace_view_sweep.
    + rewrite started_handles_app. simpl. rewrite started_handles_app.
      replace (started_handles (map EJoin joined)) with (@nil handle)
        by (induction joined; simpl; auto).
      replace (started_handles (sweep swept)) with (@nil handle)
        by (induction swept; simpl; auto).
      reflexivity.
Qed.

(** Spawns and waits alternate in every run of [main]. *)
Lemma main_run_paced w ctrl_c out tr :
  main_run w ctrl_c out tr -> paced (pace_view tr).
Proof.
  intros H. apply main_run_views in H
    as [(_ & _ & -> & _) | (url & _ & _ & [H | H])].
  - constructor.
  - destruct H as (_ & _ & pre & post & Hsc & _ & ->).
    pose proof (script_paced w (global_settings_of w url)
                  (length (main_profiles w)) (main_profiles w) 1 0 eq_refl)
      as Hp.
    fold (main_script w url) in Hp. rewrite Hsc, pace_view_app in Hp.
    eapply paced_prefix; [exact Hp | reflexivity].
  - destruct H as (_ & _ & -> & _).
    apply (script_paced w (global_settings_of w url)
             (length (main_profiles w)) (main_profiles w) 1 0 eq_refl).
Qed.

End ViewFacts.

(** * The claims *)

Section Claims.

Lemma in_launch_events e l :
  Forall launch_event l -> In e l -> launch_event e.
Proof. rewrite List.Forall_forall. auto. Qed.

Lemma main_script_events w url : Forall launch_event (main_script w url).
Proof. apply script_events. Qed.

Lemma main_accepted_eq w url :
  main_accepted w url
  = map (fun f => <["cookie_file" := f]> (global_settings_of w url))
        (List.filter (name_ok w) (cookie_files w)).
Proof.
  unfold main_accepted, main_profiles.
  apply (accepted_discovered w _ url). apply global_settings_url.
Qed.

Lemma filter_none {A} (P : A -> bool) l :
  Forall (fun x => P x = false) l -> List.filter P l = [].
Proof.
  induction 1 as [|x l Hx _ IH]; [reflexivity|]. simpl. now rewrite Hx.
Qed.

Lemma rejected_profiles w gs :
  Forall (fun f => name_ok w f = false) (cookie_files w) ->
  Forall (fun p => is_skip (check_profile w gs p) = true) (main_profiles w).
Proof.
  intros Hbad. unfold main_profiles. apply List.Forall_forall. intros p Hp.
  apply in_map_iff in Hp as (f & <- & Hf).
  rewrite List.Forall_forall in Hbad.
  eapply bad_name_skipped; [apply lookup_singleton_eq | auto].
Qed.

(** A property of events that holds of every piece a run is made of holds
    of the whole trace. *)
Lemma main_run_forall (P : event -> Prop) w ctrl_c out tr :
  main_run w ctrl_c out tr ->
  (forall e, launch_event e -> P e) ->
  (forall e, supervise_event e -> P e) ->
  (forall d, P (EMakedirs d)) -> P EIsDir -> P EListDir ->
  (forall l m,
     match m with
     | MissingUrl | NoInstances | ScanFailed _ | NoCookieFiles _
     | FoundCookies _ _ | SharedUrl _ | ManagerStarting | NoValidInstance
     | AllStarted _ => True
     | _ => False
     end -> P (ELog l m)) ->
  Forall P tr.
Proof.
  intros H HL HS Hmk Hi Hl Hlog.
  assert (Hsetup : Forall P setup_trace)
    by (repeat constructor; auto; now apply Hlog).
  assert (Hdisc : forall url, Forall P (discovery_trace w url)).
  { intros url. apply Forall_app. split; [assumption|].
    repeat constructor; auto; now apply Hlog. }
  assert (Hscript : forall url, Forall P (main_script w url)).
  { intros url.
    eapply List.Forall_impl; [exact HL | apply main_script_events]. }
  assert (Hjoins : forall l, Forall P (map EJoin l)).
  { intros l. eapply List.Forall_impl; [exact HS | apply joins_events]. }
  assert (Hsweep : forall l, Forall P (sweep l)).
  { intros l. eapply List.Forall_impl; [exact HS | apply sweep_events]. }
  destruct H as [ | | | url pre post ? ? ? Hsc | | | | | ];
    repeat first
      [ assumption
      | apply Forall_app; split
      | apply Forall_cons; split
      | apply Forall_nil; exact I
      | apply Hdisc | apply Hscript | apply Hjoins | apply Hsweep
      | apply Hlog; exact I
      | apply HS; exact I ].
  (* the script cut short by Ctrl+C *)
  specialize (Hscript url). rewrite Hsc in Hscript.
  now apply Forall_app in Hscript as [Hpre _].
Qed.

Lemma run_main_pair w ctrl_c :
  run_main w ctrl_c = (fst (run_main w ctrl_c), snd (run_main w ctrl_c)).
Proof. now destruct (run_main w ctrl_c). Qed.

(** C7. If the endpoint variable is unset, or empty once white space is
    trimmed, the run logs the error and returns without raising, whatever
    Ctrl+C is scheduled; nothing is spawned and the cookies directory is
    neither tested nor listed. *)
Theorem C7_missing_endpoint_halts (w : World) (ctrl_c : option nat) :
  (getenv w "CAMOUFOX_INSTANCE_URL" = None
   \/ exists raw, getenv w "CAMOUFOX_INSTANCE_URL" = Some raw
                  /\ Str.strip raw = "") ->
  exists s,
    run_main w ctrl_c = (Done tt, s)
    /\ trace s = [EMakedirs LogsDir; EMakedirs CookiesDir;
                  ELog INFO ManagerStarting;
                  ELog ERROR MissingUrl; ELog ERROR NoInstances]
    /\ spawned (trace s) = []
    /\ ~ In EIsDir (trace s) /\ ~ In EListDir (trace s).
Proof.
  intros H.
  assert (Hnone : _clean_env_value (getenv w "CAMOUFOX_INSTANCE_URL") = None).
  { destruct H as [-> | (raw & -> & Hraw)]; [reflexivity|].
    simpl. now rewrite Hraw. }
  unfold run_main, main, load_instances_from_env. rewrite Hnone.
  eexists. split; [reflexivity|]. simpl.
  repeat split; intuition discriminate.
Qed.

(** C8. If the endpoint is set and credential files are discovered but
    every one of them is rejected, no process is spawned, the run never
    enters the join phase (no "all started" line, no join, no wait), its
    last action is to log the error "no valid instance", and it returns. *)
Theorem C8_no_valid_profile_no_spawn
    (w : World) (ctrl_c : option nat) (url : string) :
  shared_url w = Some url ->
  cookie_files w <> [] ->
  Forall (fun f => name_ok w f = false) (cookie_files w) ->
  exists s,
    run_main w ctrl_c = (Done tt, s)
    /\ spawned (trace s) = []
    /\ (forall h, ~ In (EJoin h) (trace s))
    /\ (forall n, ~ In (ELog INFO (AllStarted n)) (trace s))
    /\ (forall secs, ~ In (ESleep secs) (trace s))
    /\ exists tr, trace s = tr ++ [ELog ERROR NoValidInstance].
Proof.
  intros Hurl Hne Hbad.
  assert (Hacc : main_accepted w url = []).
  { rewrite main_accepted_eq. now rewrite (filter_none _ _ Hbad). }
  pose proof (rejected_profiles w (global_settings_of w url) Hbad) as Hskip.
  pose proof (script_all_skipped w (global_settings_of w url)
                (length (main_profiles w)) (main_profiles w) 1 0 Hskip)
    as (_ & Hpv & Hlogs).
  fold (main_script w url) in Hpv, Hlogs.
  rewrite List.Forall_forall in Hlogs.
  assert (Hquiet : forall e,
            In e (discovery_trace w url ++ main_script w url
                  ++ [ELog ERROR NoValidInstance]) ->
            match e with
            | EJoin _ | ESleep _ | ELog _ (AllStarted _) => False
            | _ => True
            end).
  { intros e He. rewrite !in_app_iff in He.
    destruct He as [He | [He | He]].
    - simpl in He. repeat destruct He as [<- | He]; try exact I. contradiction.
    - pose proof (in_launch_events _ _ (main_script_events w url) He) as Hle.
      apply Hlogs in He as (l & m & ->).
      destruct m; simpl in Hle; try contradiction; exact I.
    - simpl in He. destruct He as [<- | []]. exact I. }
  rewrite (main_launching w ctrl_c url Hurl Hne).
  pose proof (launch_run w (global_settings_of w url)
                (length (main_profiles w)) (main_profiles w)
                1 [] (launch_state w ctrl_c url)) as HL.
  change (length (@nil handle)) with 0 in HL.
  fold (main_script w url) in HL. fold (main_accepted w url) in HL.
  change (trace (launch_state w ctrl_c url)) with (discovery_trace w url) in HL.
  rewrite Hacc in HL.
  destruct (launch w _ _ 1 _ [] _) as [[ps|[|]|] s1];
    [| | now destruct HL as [[] _] | contradiction].
  - destruct HL as (-> & Ht & _). simpl.
    eexists. split; [reflexivity|]. simpl. rewrite Ht, <- app_assoc.
    repeat split.
    + rewrite !spawned_app. unfold main_script. rewrite spawned_script.
      fold (main_accepted w url). now rewrite Hacc.
    + intros h Hin. apply (Hquiet _ Hin).
    + intros n Hin. apply (Hquiet _ Hin).
    + intros secs Hin. apply (Hquiet _ Hin).
    + exists (discovery_trace w url ++ main_script w url).
      now rewrite <- app_assoc.
  - (* there is no wait for Ctrl+C to interrupt *)
    destruct HL as (_ & _ & _ & _ & pre & post & Hsc & _).
    assert (Hin : In (ESleep 30) (main_script w url))
      by (rewrite Hsc; apply in_elt).
    apply Hlogs in Hin as (l & m & Hin). discriminate.
Qed.

(** C10. However [main] is run, it never logs that the cookies directory
    does not exist: it creates the directory before discovery tests for it.
    When the directory is missing at the start (and the endpoint is set) the
    run ends with the error "no cookie file found". The branch itself is
    live: discovery entered with the directory missing does log it. *)
Theorem C10_missing_directory_branch_unreachable
    (w : World) (ctrl_c : option nat) (out : outcome unit) (s : state) :
  run_main w ctrl_c = (out, s) ->
  (forall l p, ~ In (ELog l (CookiesDirMissing p)) (trace s))
  /\ (cookies_at_start w = Missing -> shared_url w <> None ->
      out = Done tt
      /\ In (EMakedirs CookiesDir) (trace s)
      /\ In (ELog ERROR (NoCookieFiles (cookies_dir w))) (trace s))
  /\ (forall s0, shared_url w <> None -> cookies s0 = Missing ->
      In (ELog ERROR (CookiesDirMissing (cookies_dir w)))
         (trace (snd (load_instances_from_env w s0)))).
Proof.
  intros Hrun. split; [|split].
  - intros l p Hin. apply run_main_shape in Hrun.
    assert (HP : Forall (fun e => match e with
                                  | ELog _ (CookiesDirMissing _) => False
                                  | _ => True
                                  end) (trace s)).
    { eapply main_run_forall; [exact Hrun | ..]; try exact I; auto.
      - intros e He. destruct e; try exact I. now destruct m.
      - intros e He. destruct e; try exact I. now destruct m.
      - intros l' m Hm. now destruct m. }
    rewrite List.Forall_forall in HP. exact (HP _ Hin).
  - intros Hmiss Hurl. revert Hrun.
    unfold run_main, main, load_instances_from_env, start, start_with.
    unfold shared_url in Hurl.
    destruct (_clean_env_value _); [|contradiction].
    rewrite Hmiss. intros [= <- <-]. simpl. auto 10.
  - intros s0 Hurl Hmiss. unfold load_instances_from_env.
    unfold shared_url in Hurl.
    destruct (_clean_env_value _); [|contradiction].
    unfold mbind, M_bind, bind, isdir, log, act. rewrite Hmiss. simpl.
    apply in_app_iff. right. now left.
Qed.

(** No run of the loop spawns a worker for a name that breaks an
    invariant. *)
Lemma launch_never_spawns_bad_name w gs profiles ctrl_c cfg c :
  name_ok w c = false ->
  In cfg (spawned (launch_trace w gs profiles ctrl_c)) ->
  cfg !! "cookie_file" <> Some c.
Proof.
  intros Hbad Hin Hc.
  destruct (launch_trace_run w gs profiles ctrl_c) as (_ & [rest Hrest] & _).
  assert (Hacc : In cfg (accepted w gs profiles))
    by (rewrite Hrest; apply in_app_iff; now left).
  apply accepted_names in Hacc as (c' & Hc' & Hok & _). congruence.
Qed.

(** Nor does any run of [main]. *)
Lemma main_never_spawns_bad_name w ctrl_c out s cfg c :
  name_ok w c = false ->
  run_main w ctrl_c = (out, s) ->
  In cfg (spawned (trace s)) ->
  cfg !! "cookie_file" <> Some c.
Proof.
  intros Hbad Hrun Hin Hc.
  apply run_main_shape, main_run_views in Hrun
    as [(_ & Hsp & _) | (url & _ & _ & [Hr | Hr])].
  - now rewrite Hsp in Hin.
  - destruct Hr as (_ & _ & pre & post & Hsc & Hsp & _).
    assert (Hacc : In cfg (main_accepted w url)).
    { unfold main_accepted.
      rewrite <- (spawned_script w _ (length (main_profiles w)) _ 1 0).
      fold (main_script w url). rewrite Hsc, spawned_app, <- Hsp.
      apply in_app_iff. now left. }
    apply accepted_names in Hacc as (c' & Hc' & Hok & _). congruence.
  - destruct Hr as (_ & Hsp & _). rewrite Hsp in Hin.
    apply accepted_names in Hin as (c' & Hc' & Hok & _). congruence.
Qed.

(** A rejected profile leaves the others as they are: the loop spawns the
    same workers, in the same order, with or without it. *)
Lemma skipped_profile_transparent w gs profile before after :
  is_skip (check_profile w gs profile) = true ->
  spawned (launch_trace w gs (before ++ profile :: after) None)
  = spawned (launch_trace w gs (before ++ after) None).
Proof.
  intros Hskip.
  destruct (launch_trace_run w gs (before ++ profile :: after) None)
    as (_ & _ & H1).
  destruct (launch_trace_run w gs (before ++ after) None) as (_ & _ & H2).
  rewrite (H1 eq_refl), (H2 eq_refl), !accepted_app. simpl.
  now destruct (check_profile w gs profile).
Qed.

(** C5. A profile whose file name contains a directory separator differs
    from its base name and is skipped; no run of the loop, whatever list of
    profiles it is given, spawns a worker for that name; and the loop spawns
    for the remaining profiles exactly what it spawns without it. *)
Theorem C5_separator_rejected
    (w : World) (gs profile : gmap string string) (c : string) :
  profile !! "cookie_file" = Some c ->
  Str.has_sep c = true ->
  Str.basename c <> c
  /\ is_skip (check_profile w gs profile) = true
  /\ (forall profiles ctrl_c cfg,
       In cfg (spawned (launch_trace w gs profiles ctrl_c)) ->
       cfg !! "cookie_file" <> Some c)
  /\ (forall before after,
       spawned (launch_trace w gs (before ++ profile :: after) None)
       = spawned (launch_trace w gs (before ++ after) None)).
Proof.
  intros Hc Hsep.
  assert (Hbad : name_ok w c = false) by (unfold name_ok; now rewrite Hsep).
  pose proof (bad_name_skipped w gs profile c Hc Hbad) as Hskip.
  repeat split.
  - intros E. apply basename_fixed in E. congruence.
  - exact Hskip.
  - intros profiles ctrl_c cfg.
    now apply launch_never_spawns_bad_name.
  - intros before after. now apply skipped_profile_transparent.
Qed.

(** C6. A name that does not end in [.json], case ignored, is skipped and
    the loop goes on with the other profiles; a name that ends in any case
    variant of [.json] passes the extension test. *)
Theorem C6_extension_checked_ignoring_case
    (w : World) (gs : gmap string string) (c : string) :
  (~ ends_in_json_nocase c ->
   forall profile, profile !! "cookie_file" = Some c ->
     is_skip (check_profile w gs profile) = true
     /\ (forall profiles ctrl_c cfg,
          In cfg (spawned (launch_trace w gs profiles ctrl_c)) ->
          cfg !! "cookie_file" <> Some c)
     /\ (forall before after,
          spawned (launch_trace w gs (before ++ profile :: after) None)
          = spawned (launch_trace w gs (before ++ after) None)))
  /\ (ends_in_json_nocase c -> is_json c = true).
Proof.
  split.
  - intros Hno profile Hc.
    assert (Hj : is_json c = false).
    { destruct (is_json c) eqn:E; [|reflexivity].
      exfalso. apply Hno. now apply is_json_spec. }
    assert (Hbad : name_ok w c = false)
      by (unfold name_ok; rewrite Hj; now rewrite andb_false_r).
    pose proof (bad_name_skipped w gs profile c Hc Hbad) as Hskip.
    repeat split.
    + exact Hskip.
    + intros profiles ctrl_c cfg. now apply launch_never_spawns_bad_name.
    + intros before after. now apply skipped_profile_transparent.
  - apply is_json_spec.
Qed.

(** C4, amended. A profile whose resolved path is neither strictly within
    the resolved cookies directory nor that directory itself is skipped,
    with the error "must be located under cookies/" when the name passes the
    base-name and extension checks, and neither the loop nor [main] ever
    spawns a worker for that name. *)
Theorem C4_escaping_path_rejected
    (w : World) (gs profile : gmap string string) (c : string) :
  profile !! "cookie_file" = Some c ->
  ~ strictly_within (resolve w (cookies_dir w))
      (resolve w (Path.join (resolve w (cookies_dir w)) c)) ->
  resolve w (Path.join (resolve w (cookies_dir w)) c)
    <> resolve w (cookies_dir w) ->
  is_skip (check_profile w gs profile) = true
  /\ (Str.basename c = c -> is_json c = true ->
      is_Some ((profile ∪ gs) !! "url") ->
      check_profile w gs profile = Skip ERROR (OutsideCookies c))
  /\ (forall profiles ctrl_c cfg,
       In cfg (spawned (launch_trace w gs profiles ctrl_c)) ->
       cfg !! "cookie_file" <> Some c)
  /\ (forall ctrl_c out s cfg,
       run_main w ctrl_c = (out, s) -> In cfg (spawned (trace s)) ->
       cfg !! "cookie_file" <> Some c).
Proof.
  intros Hc Hout Hne.
  assert (Hesc : escapes w c = true) by (now apply escapes_spec).
  assert (Hbad : name_ok w c = false)
    by (unfold name_ok; rewrite Hesc; now rewrite andb_false_r).
  repeat split.
  - now apply (bad_name_skipped w gs profile c).
  - intros Hb Hj [u Hu]. unfold check_profile.
    rewrite (merged_cookie_file _ _ _ Hc), Hu, Hb, String.eqb_refl, Hj, Hesc.
    reflexivity.
  - intros profiles ctrl_c cfg. now apply launch_never_spawns_bad_name.
  - intros ctrl_c out s cfg. now apply main_never_spawns_bad_name.
Qed.

Lemma in_supervise_events e l :
  Forall supervise_event l -> In e l -> supervise_event e.
Proof. rewrite List.Forall_forall. auto. Qed.

Lemma in_discovery_trace e w url :
  In e (discovery_trace w url) ->
  match e with
  | EMakedirs _ | EIsDir | EListDir | ELog _ ManagerStarting
  | ELog _ (FoundCookies _ _) | ELog _ (SharedUrl _) => True
  | _ => False
  end.
Proof.
  simpl. intros H. repeat destruct H as [<- | H]; try exact I. contradiction.
Qed.

Lemma terminated_app a b : terminated (a ++ b) = terminated a ++ terminated b.
Proof.
  induction a as [|e a IH]; [reflexivity|].
  destruct e; simpl; rewrite ?IH; reflexivity.
Qed.

Lemma terminated_none (P : event -> Prop) l :
  (forall h, ~ P (ETerminate h)) -> Forall P l -> terminated l = [].
Proof.
  intros HP. induction 1 as [|e l He _ IH]; [reflexivity|].
  destruct e; simpl; auto. now apply HP in He.
Qed.

Lemma terminated_sweep l : terminated (sweep l) = l.
Proof. induction l; simpl; congruence. Qed.

Lemma terminated_joins l : terminated (map EJoin l) = [].
Proof. induction l; simpl; auto. Qed.

Lemma terminated_script w url : terminated (main_script w url) = [].
Proof.
  apply (terminated_none launch_event); [|apply main_script_events].
  intros h H. exact H.
Qed.

(** ** Runs with several Ctrl+C's and paths that cannot be resolved *)

Lemma interrupts_app a b : interrupts (a ++ b) = interrupts a + interrupts b.
Proof.
  induction a as [|e a IH]; [reflexivity|].
  destruct e; simpl; rewrite ?IH; reflexivity.
Qed.

Lemma interrupts_none (P : event -> Prop) l :
  ~ P EInterrupt -> Forall P l -> interrupts l = 0.
Proof.
  intros HP. induction 1 as [|e l He _ IH]; [reflexivity|].
  destruct e; simpl; auto. now apply HP in He.
Qed.

Lemma interrupts_joins l : interrupts (map EJoin l) = 0.
Proof. induction l; simpl; auto. Qed.

Lemma interrupts_launch l : Forall launch_event l -> interrupts l = 0.
Proof. apply interrupts_none. intros H. exact H. Qed.

(** A trace is cut at its first Ctrl+C in one way only. *)
Lemma cut_at_interrupt a1 b1 a2 b2 :
  interrupts a1 = 0 -> interrupts a2 = 0 ->
  a1 ++ EInterrupt :: b1 = a2 ++ EInterrupt :: b2 ->
  a1 = a2 /\ b1 = b2.
Proof.
  revert a2. induction a1 as [|e a1 IH]; intros [|e2 a2] H1 H2 E.
  - injection E as ->. now split.
  - injection E as <- _. discriminate H2.
  - injection E as -> _. discriminate H1.
  - injection E as -> E.
    destruct (IH a2) as [-> ->]; [| |exact E|now split];
      destruct e2; simpl in *; congruence.
Qed.

Lemma supervise_events_quiet d :
  Forall supervise_event d -> spawned d = [] /\ started_handles d = [].
Proof.
  induction 1 as [|e d He _ [IH1 IH2]]; [now split|].
  destruct e; simpl; auto; contradiction.
Qed.

Lemma supervise_events_pace d : Forall supervise_event d -> pace_view d = [].
Proof.
  induction 1 as [|e d He _ IH]; [reflexivity|].
  destruct e; simpl; auto; contradiction.
Qed.

(** The sweep of lines 132-134, whatever Ctrl+C is still due: it runs to
    its end, or a further Ctrl+C leaves it as an exception, or it stalls at
    a worker that ignores the signal. *)
Lemma terminate_all_any w processes : forall s,
  match terminate_all w processes s with
  | (Done _, s') => trace s' = trace s ++ sweep processes
  | (Raised _, s') =>
      exists d, Forall supervise_event d
                /\ trace s' = trace s ++ d ++ [EInterrupt]
  | (Blocked, s') =>
      exists done h,
        In h processes /\ worker w h = IgnoresSignal
        /\ trace s' = trace s ++ sweep done ++ [ETerminate h]
  end.
Proof.
  induction processes as [|h rest IH]; intros s.
  - simpl. now rewrite app_nil_r.
  - assert (Hstep : forall s2,
      trace s2 = trace s ++ [ETerminate h; EJoin h] ->
      match terminate_all w rest s2 with
      | (Done _, s') => trace s' = trace s ++ sweep (h :: rest)
      | (Raised _, s') =>
          exists d, Forall supervise_event d
                    /\ trace s' = trace s ++ d ++ [EInterrupt]
      | (Blocked, s') =>
          exists done h',
            In h' (h :: rest) /\ worker w h' = IgnoresSignal
            /\ trace s' = trace s ++ sweep done ++ [ETerminate h']
      end).
    { intros s2 Ht2. specialize (IH s2).
      destruct (terminate_all w rest s2) as [[[]|e|] s'].
      - rewrite IH, Ht2, <- app_assoc. reflexivity.
      - destruct IH as (d & Hd & Ht). exists (ETerminate h :: EJoin h :: d).
        split; [repeat constructor; assumption|].
        rewrite Ht, Ht2, <- app_assoc. reflexivity.
      - destruct IH as (done & h' & Hin & Hw & Ht).
        exists (h :: done), h'. split; [now right|]. split; [assumption|].
        rewrite Ht, Ht2, <- app_assoc. reflexivity. }
    assert (Hcut : exists d, Forall supervise_event d
              /\ trace s ++ [ETerminate h] ++ [EInterrupt]
                 = trace s ++ d ++ [EInterrupt]).
    { exists [ETerminate h]. split; [repeat constructor | reflexivity]. }
    cbn [terminate_all].
    unfold mbind, M_bind, bind, terminate, join_process, blocking, stuck,
      interrupted, exits.
    simpl.
    destruct (worker w h) eqn:Hw.
    + destruct (pending s) as [[|m]|]; simpl.
      * rewrite <- app_assoc. exact Hcut.
      * apply Hstep. simpl. now rewrite <- app_assoc.
      * apply Hstep. simpl. now rewrite <- app_assoc.
    + rewrite bool_decide_eq_true_2 by (left).
      destruct (pending s) as [[|m]|]; simpl.
      * rewrite <- app_assoc. exact Hcut.
      * apply Hstep. simpl. now rewrite <- app_assoc.
      * apply Hstep. simpl. now rewrite <- app_assoc.
    + destruct (pending s) as [m|]; simpl.
      * rewrite <- app_assoc. exact Hcut.
      * exists [], h. simpl. auto.
Qed.

(** The supervising phase of lines 127-135 from any state. What it adds to
    the trace holds no Ctrl+C when the workers were joined or are still
    awaited, one when the handler caught it and swept the workers or stalls
    at a worker that ignores the signal, and two or more when a further
    Ctrl+C leaves the handler as an exception. *)
Lemma supervise_any w processes s out s' :
  supervise w processes s = (out, s') ->
  exists d,
    trace s' = trace s ++ d
    /\ Forall supervise_event d
    /\ match out with
       | Done _ =>
           interrupts d = 0
           \/ exists joined,
                d = map EJoin joined ++ [EInterrupt; ELog INFO CaughtCtrlC]
                    ++ sweep processes ++ [ELog INFO AllTerminated]
       | Raised _ => 2 <= interrupts d
       | Blocked =>
           interrupts d = 0
           \/ exists h, In h processes /\ worker w h = IgnoresSignal
       end.
Proof.
  unfold supervise, try_except.
  pose proof (join_all_run w processes s) as HJ.
  destruct (join_all w processes s) as [[[]|[|]|] s1]; [| |contradiction|].
  - intros [= <- <-]. exists (map EJoin processes).
    split; [exact HJ|]. split; [apply joins_events|].
    left. apply interrupts_joins.
  - destruct HJ as (_ & _ & joined & Ht1).
    unfold mbind, M_bind, bind, log, act.
    pose proof (terminate_all_any w processes (emit (ELog INFO CaughtCtrlC) s1))
      as HT.
    destruct (terminate_all w processes _) as [[[]|e|] s2];
      intros [= <- <-].
    + exists (map EJoin joined ++ [EInterrupt; ELog INFO CaughtCtrlC]
              ++ sweep processes ++ [ELog INFO AllTerminated]).
      split; [|split; [|right; now exists joined]].
      * simpl. rewrite HT. simpl. rewrite Ht1, <- !app_assoc. reflexivity.
      * apply Forall_app. split; [apply joins_events|].
        repeat constructor. apply Forall_app.
        split; [apply sweep_events | repeat constructor].
    + destruct HT as (d & Hd & Ht2).
      exists (map EJoin joined ++ [EInterrupt; ELog INFO CaughtCtrlC]
              ++ d ++ [EInterrupt]).
      split; [|split].
      * rewrite Ht2. simpl. rewrite Ht1, <- !app_assoc. reflexivity.
      * apply Forall_app. split; [apply joins_events|].
        repeat constructor. apply Forall_app.
        split; [assumption | repeat constructor].
      * rewrite interrupts_app, interrupts_joins. simpl.
        rewrite interrupts_app. simpl. lia.
    + destruct HT as (done & h & Hin & Hw & Ht2).
      exists (map EJoin joined ++ [EInterrupt; ELog INFO CaughtCtrlC]
              ++ sweep done ++ [ETerminate h]).
      split; [|split; [|right; now exists h]].
      * rewrite Ht2. simpl. rewrite Ht1, <- !app_assoc. reflexivity.
      * apply Forall_app. split; [apply joins_events|].
        repeat constructor. apply Forall_app.
        split; [apply sweep_events | repeat constructor].
  - intros [= <- <-]. destruct HJ as (_ & joined & Ht1).
    exists (map EJoin joined).
    split; [exact Ht1|]. split; [apply joins_events|].
    left. apply interrupts_joins.
Qed.

(** With no Ctrl+C due, the supervising phase does not raise. *)
Lemma supervise_quiet w processes s e s' :
  pending s = None -> supervise w processes s <> (Raised e, s').
Proof.
  intros Hp. unfold supervise, try_except.
  pose proof (join_all_run w processes s) as HJ.
  destruct (join_all w processes s) as [[[]|[|]|] s1];
    [discriminate | | contradiction | discriminate].
  now destruct HJ as [Hn _].
Qed.

(** What leaves the sweep, and so the supervising phase, as an exception is
    a Ctrl+C. *)
Lemma terminate_all_raised w processes : forall s e s',
  terminate_all w processes s = (Raised e, s') -> e = KeyboardInterrupt.
Proof.
  induction processes as [|h rest IH]; intros s e s'; [discriminate|].
  cbn [terminate_all].
  unfold mbind, M_bind, bind, terminate, join_process, blocking, stuck,
    interrupted, exits.
  simpl.
  destruct (worker w h).
  - destruct (pending s) as [[|m]|]; simpl;
      [now intros [= <- _] | apply IH | apply IH].
  - rewrite bool_decide_eq_true_2 by (left).
    destruct (pending s) as [[|m]|]; simpl;
      [now intros [= <- _] | apply IH | apply IH].
  - destruct (pending s) as [m|]; simpl; [now intros [= <- _] | discriminate].
Qed.

Lemma supervise_raised w processes s e s' :
  supervise w processes s = (Raised e, s') -> e = KeyboardInterrupt.
Proof.
  unfold supervise, try_except.
  pose proof (join_all_run w processes s) as HJ.
  destruct (join_all w processes s) as [[[]|[|]|] s1];
    [discriminate | | contradiction | discriminate].
  unfold mbind, M_bind, bind, log, act.
  destruct (terminate_all w processes _) as [[[]|e'|] s2] eqn:HT;
    [discriminate | | discriminate].
  intros [= <- _]. exact (terminate_all_raised _ _ _ _ _ HT).
Qed.

(** A run that does not reach its launch loop. *)
Lemma run_main_with_early w ctrl_c more unresolvable out s :
  run_main_with w ctrl_c more unresolvable = (out, s) ->
  shared_url w = None \/ cookie_files w = [] ->
  out = Done tt /\ spawned (trace s) = [] /\ started_handles (trace s) = []
  /\ (forall l n, ~ In (ELog l (AllStarted n)) (trace s))
  /\ terminated (trace s) = [] /\ interrupts (trace s) = 0
  /\ pace_view (trace s) = [].
Proof.
  intros Hrun Hearly. revert Hrun.
  unfold run_main_with, main, load_instances_from_env, start_with.
  destruct (shared_url w) as [url|] eqn:Hurl; unfold shared_url in Hurl;
    rewrite Hurl.
  2:{ intros [= <- <-]. repeat split. intros l n H. simpl in H.
      intuition discriminate. }
  destruct Hearly as [|Hcf]; [discriminate|].
  unfold mbind, M_bind, bind, makedirs, log, act, isdir, listdir.
  unfold cookie_files in Hcf.
  destruct (cookies_at_start w) as [|names|err]; simpl; try rewrite Hcf;
    intros [= <- <-]; repeat split; intros l n H; simpl in H;
    intuition discriminate.
Qed.

(** A run that reaches its launch loop: Ctrl+C cuts the loop short at a
    pacing wait, or a path that cannot be resolved ends it, or it accepts
    nothing, or the supervising phase is entered. *)
Lemma run_main_with_launched w ctrl_c more unresolvable url out s :
  shared_url w = Some url -> cookie_files w <> [] ->
  run_main_with w ctrl_c more unresolvable = (out, s) ->
  (out = Raised KeyboardInterrupt /\ ctrl_c <> None
   /\ exists pre post,
        main_script w url = pre ++ ESleep 30 :: post
        /\ trace s = discovery_trace w url ++ pre ++ [EInterrupt])
  \/ (out = Raised RuntimeError /\ unresolvable <> []
      /\ exists pre post,
           main_script w url = pre ++ post
           /\ trace s = discovery_trace w url ++ pre)
  \/ (main_accepted w url = [] /\ out = Done tt
      /\ trace s = discovery_trace w url ++ main_script w url
                   ++ [ELog ERROR NoValidInstance])
  \/ (main_accepted w url <> []
      /\ exists s2,
           trace s2 = discovery_trace w url ++ main_script w url
                      ++ [ELog INFO (AllStarted (length (main_accepted w url)))]
           /\ (ctrl_c = None -> pending s2 = None)
           /\ signalled s2 = []
           /\ supervise w (main_handles w url) s2 = (out, s)).
Proof.
  intros Hurl Hne.
  rewrite (main_launching_with w ctrl_c more unresolvable url Hurl Hne).
  pose proof (launch_run w (global_settings_of w url)
                (length (main_profiles w)) (main_profiles w)
                1 [] (launch_state_with w ctrl_c more unresolvable url)) as HL.
  change (length (@nil handle)) with 0 in HL.
  fold (main_script w url) in HL. fold (main_accepted w url) in HL.
  change (trace (launch_state_with w ctrl_c more unresolvable url))
    with (discovery_trace w url) in HL.
  change (pending (launch_state_with w ctrl_c more unresolvable url))
    with ctrl_c in HL.
  change (broken (launch_state_with w ctrl_c more unresolvable url))
    with unresolvable in HL.
  change (signalled (launch_state_with w ctrl_c more unresolvable url))
    with (@nil handle) in HL.
  destruct (launch w _ _ 1 _ [] _) as [[ps|[|]|] s1]; [| | |contradiction].
  - destruct HL as (Hps & Ht & Hp & Hsig & _). simpl in Hps.
    fold (main_handles w url) in Hps. unfold after_launch.
    destruct ps as [|p ps'].
    + intros [= <- <-]. right. right. left. simpl. rewrite Ht, <- app_assoc.
      repeat split. unfold main_handles in Hps.
      destruct (main_accepted w url); [reflexivity | discriminate].
    + intros Hrun. right. right. right.
      assert (Hacc : main_accepted w url <> []).
      { intros E. unfold main_handles in Hps. rewrite E in Hps.
        discriminate. }
      split; [exact Hacc|].
      assert (Hlen : length (p :: ps') = length (main_accepted w url))
        by (rewrite Hps; unfold main_handles; now rewrite length_seq).
      rewrite Hlen, Hps in Hrun.
      exists (emit (ELog INFO (AllStarted (length (main_accepted w url)))) s1).
      split; [simpl; now rewrite Ht, <- app_assoc|]. split; [exact Hp|].
      split; [exact Hsig | exact Hrun].
  - destruct HL as (Hc & _ & _ & _ & pre & post & Hsc & Ht).
    intros [= <- <-]. left.
    split; [reflexivity|]. split; [exact Hc|]. now exists pre, post.
  - destruct HL as (Hb & pre & post & Hsc & Ht).
    intros [= <- <-]. right. left.
    split; [reflexivity|]. split; [exact Hb|]. now exists pre, post.
Qed.

(** The "all started" line is logged once, with the number of workers
    started. *)
Lemma all_started_once w url k rest l n :
  Forall supervise_event rest ->
  In (ELog l (AllStarted n))
     ((discovery_trace w url ++ main_script w url
       ++ [ELog INFO (AllStarted k)]) ++ rest) ->
  n = k.
Proof.
  intros Hrest H. rewrite !in_app_iff in H.
  destruct H as [[H | [H | H]] | H].
  - now apply in_discovery_trace in H.
  - now apply (in_launch_events _ _ (main_script_events w url)) in H.
  - simpl in H. destruct H as [H | []]. congruence.
  - now apply (in_supervise_events _ _ Hrest) in H.
Qed.

(** No "all started" line before the supervising phase. *)
Lemma not_started_yet w url pre post tail l n :
  main_script w url = pre ++ post ->
  tail = [] \/ tail = [EInterrupt] \/ tail = [ELog ERROR NoValidInstance] ->
  ~ In (ELog l (AllStarted n)) (discovery_trace w url ++ pre ++ tail).
Proof.
  intros Hsc Htail H.
  pose proof (main_script_events w url) as Hev. rewrite Hsc in Hev.
  apply Forall_app in Hev as [Hpre _].
  rewrite !in_app_iff in H. destruct H as [H | [H | H]].
  - now apply in_discovery_trace in H.
  - now apply (in_launch_events _ _ Hpre) in H.
  - destruct Htail as [-> | [-> | ->]]; simpl in H; intuition discriminate.
Qed.

(** A run that entered the join phase and received exactly one Ctrl+C: the
    handler ran, and either it finished its sweep or it waits for a worker
    that ignores the signal. *)
Lemma run_main_with_supervising w ctrl_c more unresolvable out s n :
  run_main_with w ctrl_c more unresolvable = (out, s) ->
  In (ELog INFO (AllStarted n)) (trace s) ->
  interrupts (trace s) = 1 ->
  exists url joined,
    shared_url w = Some url /\ n = length (main_accepted w url)
    /\ started_handles (trace s) = main_handles w url
    /\ ((out = Done tt
         /\ trace s = (discovery_trace w url ++ main_script w url
                       ++ ELog INFO (AllStarted n) :: map EJoin joined)
                      ++ [EInterrupt; ELog INFO CaughtCtrlC]
                      ++ sweep (main_handles w url)
                      ++ [ELog INFO AllTerminated])
        \/ (out = Blocked
            /\ exists h, In h (main_handles w url)
                         /\ worker w h = IgnoresSignal)).
Proof.
  intros Hrun Hstart Hint.
  destruct (shared_url w) as [url|] eqn:Hurl.
  2:{ destruct (run_main_with_early _ _ _ _ _ _ Hrun (or_introl Hurl))
        as (_ & _ & _ & Hno & _). now apply Hno in Hstart. }
  destruct (cookie_files w) as [|f fs] eqn:Hcf.
  { destruct (run_main_with_early _ _ _ _ _ _ Hrun)
      as (_ & _ & _ & Hno & _); [now right|]. now apply Hno in Hstart. }
  assert (Hne : cookie_files w <> []) by (rewrite Hcf; discriminate).
  destruct (run_main_with_launched _ _ _ _ url _ _ Hurl Hne Hrun)
    as [(_ & _ & pre & post & Hsc & Ht)
       | [(_ & _ & pre & post & Hsc & Ht)
         | [(_ & _ & Ht) | (Hacc & s2 & Ht2 & _ & _ & Hsup)]]].
  - exfalso. rewrite Ht in Hstart.
    apply (not_started_yet _ _ _ _ _ _ _ Hsc) in Hstart; [assumption|].
    tauto.
  - exfalso. rewrite Ht in Hstart.
    rewrite <- (app_nil_r pre) in Hstart at 1.
    apply (not_started_yet _ _ _ _ _ _ _ Hsc) in Hstart; [assumption|].
    tauto.
  - exfalso. rewrite Ht in Hstart.
    rewrite <- (app_nil_r (main_script w url)) in Hstart at 1.
    rewrite <- app_assoc in Hstart.
    apply (not_started_yet w url (main_script w url) [] _ INFO n) in Hstart;
      [assumption | now rewrite app_nil_r | tauto].
  - destruct (supervise_any _ _ _ _ _ Hsup) as (d & Ht & Hd & Hcase).
    rewrite Ht, Ht2 in Hstart.
    pose proof (all_started_once _ _ _ _ _ _ Hd Hstart) as Hn.
    assert (Hi : interrupts d = 1).
    { rewrite Ht, Ht2, !interrupts_app in Hint. simpl in Hint.
      rewrite (interrupts_launch _ (main_script_events w url)) in Hint.
      exact Hint. }
    assert (Hh : started_handles (trace s) = main_handles w url).
    { rewrite Ht, Ht2, !started_handles_app.
      destruct (supervise_events_quiet d Hd) as [_ ->]. simpl.
      rewrite !app_nil_r. unfold main_script, main_handles, main_accepted.
      apply started_handles_script. }
    exists url. destruct out as [[]|e|].
    + destruct Hcase as [Hz | (joined & ->)]; [lia|].
      exists joined. repeat split; try assumption. left.
      split; [reflexivity|]. rewrite Ht, Ht2, Hn, <- !app_assoc. reflexivity.
    + lia.
    + destruct Hcase as [Hz | Hstall]; [lia|].
      exists []. repeat split; try assumption. now right.
Qed.

(** What a run spawns when no exception ends it. No KeyboardInterrupt ends
    a run without Ctrl+C, and no RuntimeError a run in which every path can
    be resolved. *)
Lemma run_main_with_completed w ctrl_c more unresolvable url out s :
  shared_url w = Some url ->
  run_main_with w ctrl_c more unresolvable = (out, s) ->
  (ctrl_c = None -> out <> Raised KeyboardInterrupt)
  /\ (unresolvable = [] -> out <> Raised RuntimeError)
  /\ ((forall e, out <> Raised e) ->
      spawned (trace s) = main_accepted w url
      /\ started_handles (trace s) = main_handles w url).
Proof.
  intros Hurl Hrun.
  destruct (cookie_files w) as [|f fs] eqn:Hcf.
  { destruct (run_main_with_early _ _ _ _ _ _ Hrun)
      as (-> & Hsp & Hh & _); [now right|].
    split; [discriminate|]. split; [discriminate|].
    intros _. rewrite Hsp, Hh.
    unfold main_handles. rewrite main_accepted_eq, Hcf. now split. }
  assert (Hne : cookie_files w <> []) by (rewrite Hcf; discriminate).
  assert (Hview : forall rest,
    spawned rest = [] -> started_handles rest = [] ->
    spawned (discovery_trace w url ++ main_script w url ++ rest)
      = main_accepted w url
    /\ started_handles (discovery_trace w url ++ main_script w url ++ rest)
      = main_handles w url).
  { intros rest H1 H2.
    rewrite !spawned_app, !started_handles_app, H1, H2.
    simpl. rewrite !app_nil_r. unfold main_script, main_handles, main_accepted.
    now rewrite spawned_script, started_handles_script. }
  destruct (run_main_with_launched _ _ _ _ url _ _ Hurl Hne Hrun)
    as [(-> & Hk & _)
       | [(-> & Hr & _)
         | [(_ & -> & Ht) | (Hacc & s2 & Ht2 & Hp2 & _ & Hsup)]]].
  - split; [|split].
    + intros Hc. contradiction.
    + discriminate.
    + intros Hno. now destruct (Hno KeyboardInterrupt).
  - split; [|split].
    + discriminate.
    + intros Hu. contradiction.
    + intros Hno. now destruct (Hno RuntimeError).
  - split; [discriminate|]. split; [discriminate|].
    intros _. rewrite Ht. now apply Hview.
  - destruct (supervise_any _ _ _ _ _ Hsup) as (d & Ht & Hd & _).
    split; [|split].
    + intros Hc ->.
      exact (supervise_quiet w (main_handles w url) s2 _ s (Hp2 Hc) Hsup).
    + intros _ ->. now apply supervise_raised in Hsup.
    + intros _. rewrite Ht, Ht2, <- !app_assoc.
      destruct (supervise_events_quiet d Hd) as [Hs Hh].
      apply Hview; simpl; assumption.
Qed.

(** C1, amended. A run of [main], whatever Ctrl+C's are scheduled and
    whatever paths cannot be resolved, that received exactly one Ctrl+C, in
    the join loop: after the line "all [n] started" and some completed
    joins. No exception leaves [main], and the [n] handles tracked are the
    [n] workers started. When every tracked worker exits once it is
    signalled, [main] returns, having sent the termination signal to every
    tracked handle, whatever its state, and awaited every one of them before
    logging that all processes ended. And [main] never returns before it
    has signalled and awaited every handle. *)
Theorem C1_interrupt_while_supervising
    (w : World) (ctrl_c : option nat) (more : list nat)
    (unresolvable : list path) (out : outcome unit) (s : state) (n : nat)
    (before : list event) (joined : list handle) (after : list event) :
  run_main_with w ctrl_c more unresolvable = (out, s) ->
  trace s = before ++ ELog INFO (AllStarted n) :: map EJoin joined
            ++ EInterrupt :: after ->
  interrupts (trace s) = 1 ->
  (forall e, out <> Raised e)
  /\ started_handles (trace s) = seq 0 n
  /\ ((forall h, h < n -> worker w h <> IgnoresSignal) ->
      out = Done tt
      /\ terminated (trace s) = seq 0 n
      /\ after = [ELog INFO CaughtCtrlC] ++ sweep (seq 0 n)
                 ++ [ELog INFO AllTerminated])
  /\ (out = Done tt ->
      terminated (trace s) = seq 0 n
      /\ after = [ELog INFO CaughtCtrlC] ++ sweep (seq 0 n)
                 ++ [ELog INFO AllTerminated]).
Proof.
  intros Hrun Htrace Hint.
  assert (Hstart : In (ELog INFO (AllStarted n)) (trace s)).
  { rewrite Htrace. apply in_or_app. right. now left. }
  destruct (run_main_with_supervising _ _ _ _ _ _ _ Hrun Hstart Hint)
    as (url & joined' & Hurl & Hn & Hh & Hcase).
  assert (Hhandles : main_handles w url = seq 0 n)
    by (unfold main_handles; now rewrite Hn).
  assert (Hswept : out = Done tt ->
      terminated (trace s) = seq 0 n
      /\ after = [ELog INFO CaughtCtrlC] ++ sweep (seq 0 n)
                 ++ [ELog INFO AllTerminated]).
  { intros Hout. destruct Hcase as [[_ Ht] | [-> _]]; [|discriminate]. split.
    - rewrite Ht, !terminated_app, terminated_sweep, terminated_script.
      simpl. now rewrite terminated_joins, app_nil_r.
    - rewrite Hhandles in Ht.
      assert (E : (discovery_trace w url ++ main_script w url
                   ++ ELog INFO (AllStarted n) :: map EJoin joined')
                  ++ EInterrupt :: [ELog INFO CaughtCtrlC] ++ sweep (seq 0 n)
                     ++ [ELog INFO AllTerminated]
                  = (before ++ ELog INFO (AllStarted n) :: map EJoin joined)
                    ++ EInterrupt :: after).
      { rewrite <- (app_assoc before). simpl. rewrite <- Htrace, Ht.
        reflexivity. }
      rewrite Htrace, app_comm_cons, app_assoc, interrupts_app in Hint.
      simpl in Hint.
      apply cut_at_interrupt in E as [_ <-]; [reflexivity | | lia].
      rewrite !interrupts_app,
        (interrupts_launch _ (main_script_events w url)).
      simpl. now rewrite interrupts_joins. }
  split; [|split; [|split]].
  - destruct Hcase as [[-> _] | [-> _]]; discriminate.
  - now rewrite Hh.
  - intros Hobey.
    assert (Hout : out = Done tt).
    { destruct Hcase as [[-> _] | [_ (h & Hin & Hw)]]; [reflexivity|].
      exfalso. rewrite Hhandles in Hin. apply in_seq in Hin.
      apply (Hobey h); [lia | exact Hw]. }
    split; [exact Hout | exact (Hswept Hout)].
  - exact Hswept.
Qed.

(** C1, as stated, fails, in three ways. Ctrl+C during the first pacing
    wait: one worker is running, the exception leaves [main], no
    termination signal is sent and nothing is joined. Ctrl+C in the join
    phase with three workers of which the second ignores the signal: the
    third, which would obey, is never signalled, and [main] does not return.
    Ctrl+C in the join phase and a second one while the handler awaits the
    first worker: the exception leaves [main] and the second worker is never
    signalled. *)
Lemma C1_interrupt_not_always_handled :
  (fst (run_main Sample.two (Some 0)) = Raised KeyboardInterrupt
   /\ started_handles (trace (snd (run_main Sample.two (Some 0)))) = [0]
   /\ last (trace (snd (run_main Sample.two (Some 0)))) = Some EInterrupt
   /\ terminated (trace (snd (run_main Sample.two (Some 0)))) = []
   /\ (forall h, ~ In (EJoin h) (trace (snd (run_main Sample.two (Some 0))))))
  /\ (fst (run_main Worlds.stubborn (Some 2)) = Blocked
      /\ In (ELog INFO (AllStarted 3))
            (trace (snd (run_main Worlds.stubborn (Some 2))))
      /\ interrupts (trace (snd (run_main Worlds.stubborn (Some 2)))) = 1
      /\ started_handles (trace (snd (run_main Worlds.stubborn (Some 2))))
         = [0; 1; 2]
      /\ worker Worlds.stubborn 2 = RunsUntilSignalled
      /\ terminated (trace (snd (run_main Worlds.stubborn (Some 2))))
         = [0; 1])
  /\ (fst (run_main_with Sample.two (Some 1) [0] [])
      = Raised KeyboardInterrupt
      /\ In (ELog INFO (AllStarted 2))
            (trace (snd (run_main_with Sample.two (Some 1) [0] [])))
      /\ interrupts (trace (snd (run_main_with Sample.two (Some 1) [0] [])))
         = 2
      /\ started_handles
           (trace (snd (run_main_with Sample.two (Some 1) [0] []))) = [0; 1]
      /\ terminated (trace (snd (run_main_with Sample.two (Some 1) [0] [])))
         = [0]).
Proof.
  split; [|split].
  - repeat split; try (vm_compute; reflexivity).
    intros h. vm_compute. intuition discriminate.
  - repeat split; try (vm_compute; reflexivity). vm_compute. auto 20.
  - repeat split; try (vm_compute; reflexivity). vm_compute. auto 20.
Qed.

(** C3, amended. With the shared endpoint set and a cookies directory whose
    entries are [names], of which [valid] are, in listing order, the [N]
    that keep the three filename invariants as the code keeps them (the
    third: resolved strictly within the resolved cookies directory or to
    that directory itself), a run that no exception ends spawns exactly [N]
    processes, in listing order; the configuration of each has [url] equal
    to the shared endpoint and [cookie_file] equal to its source file name.
    No KeyboardInterrupt ends a run without Ctrl+C, and no RuntimeError a
    run in which every path can be resolved. *)
Theorem C3_one_worker_per_valid_profile
    (w : World) (ctrl_c : option nat) (more : list nat)
    (unresolvable : list path) (url : string) (names valid : list string)
    (N : nat) (out : outcome unit) (s : state) :
  shared_url w = Some url ->
  cookies_at_start w = Listable names ->
  picks (credential_ok w) names valid ->
  length valid = N ->
  run_main_with w ctrl_c more unresolvable = (out, s) ->
  (ctrl_c = None -> out <> Raised KeyboardInterrupt)
  /\ (unresolvable = [] -> out <> Raised RuntimeError)
  /\ ((forall e, out <> Raised e) ->
      spawned (trace s)
      = map (fun f => <["cookie_file" := f]> (global_settings_of w url)) valid
      /\ length (spawned (trace s)) = N
      /\ started_handles (trace s) = seq 0 N
      /\ Forall2 (fun cfg f => cfg !! "url" = Some url
                               /\ cfg !! "cookie_file" = Some f)
                 (spawned (trace s)) valid).
Proof.
  intros Hurl Hdir Hvalid HN Hrun.
  apply (picks_filter _ (name_ok w)) in Hvalid; [|apply credential_ok_spec].
  assert (Hcf : List.filter (name_ok w) (cookie_files w) = valid).
  { unfold cookie_files. rewrite Hdir, Hvalid. apply filter_name_ok_json. }
  assert (Hfields : forall l,
    Forall2 (fun cfg f => cfg !! "url" = Some url
                          /\ cfg !! "cookie_file" = Some f)
      (map (fun f => <["cookie_file" := f]> (global_settings_of w url)) l) l).
  { induction l as [|f l IH]; simpl; [constructor|].
    constructor; [|assumption]. split.
    - rewrite lookup_insert_ne by discriminate. apply global_settings_url.
    - apply lookup_insert_eq. }
  destruct (run_main_with_completed _ _ _ _ url _ _ Hurl Hrun)
    as (Hcalm & Hsound & Hdone).
  split; [exact Hcalm|]. split; [exact Hsound|]. intros Hout.
  destruct (Hdone Hout) as [Hsp Hh].
  rewrite Hsp, Hh. unfold main_handles. rewrite main_accepted_eq, Hcf.
  rewrite length_map, HN. repeat split. apply Hfields.
Qed.

(** C3, as stated, fails, in three ways. [loop.json] is a link to the
    cookies directory itself: no listed name keeps the three invariants of
    the specification, and one worker is spawned. [knot.json], listed
    first, cannot be resolved: the run ends with a RuntimeError and nothing
    is spawned, not even for the valid [ok.json]. Ctrl+C during the first
    pacing wait: two listed names are valid and one worker is spawned. *)
Lemma C3_spawns_differ_from_valid_files :
  (picks (credential_strict Worlds.self_link) ["loop.json"] []
   /\ fst (run_main Worlds.self_link None) = Done tt
   /\ length (spawned (trace (snd (run_main Worlds.self_link None)))) = 1)
  /\ (credential_strict Worlds.knot "ok.json"
      /\ fst (run_main_with Worlds.knot None [] Worlds.knots)
         = Raised RuntimeError
      /\ spawned (trace (snd (run_main_with Worlds.knot None []
                                Worlds.knots))) = [])
  /\ (picks (credential_strict Sample.two)
            ["alice.json"; "notes.txt"; "bob.JSON"] ["alice.json"; "bob.JSON"]
      /\ fst (run_main Sample.two (Some 0)) = Raised KeyboardInterrupt
      /\ length (spawned (trace (snd (run_main Sample.two (Some 0))))) = 1).
Proof.
  split; [|split].
  - split; [|split; vm_compute; reflexivity].
    apply picks_drop; [|constructor].
    intros H. apply credential_strict_spec in H as [_ H]. now apply H.
  - split; [|split; vm_compute; reflexivity].
    apply credential_strict_spec. split; [reflexivity|].
    vm_compute. discriminate.
  - split; [|split; vm_compute; reflexivity].
    apply picks_keep.
    { apply credential_strict_spec. split; [reflexivity|].
      vm_compute. discriminate. }
    apply picks_drop.
    { intros H. apply credential_strict_spec in H as [H _].
      vm_compute in H. discriminate. }
    apply picks_keep; [|constructor].
    apply credential_strict_spec. split; [reflexivity|].
    vm_compute. discriminate.
Qed.

(** C9 at its failing input: [a.json] is accepted and [z.json], listed
    last, is rejected by validation. With [z.json] in the directory the
    supervisor waits 30 seconds after spawning the one worker; in the same
    world without [z.json] it spawns the same worker and does not wait. The
    rejected profile adds a pacing delay. *)
Lemma C9_rejected_profile_adds_a_wait :
  cookies_at_start Worlds.trailing_link = Listable ["a.json"; "z.json"]
  /\ cookies_at_start Worlds.lone_file = Listable ["a.json"]
  /\ resolve Worlds.trailing_link = resolve Worlds.lone_file
  /\ is_skip (check_profile Worlds.trailing_link
                (global_settings_of Worlds.trailing_link "https://x.test")
                (profile_of "z.json")) = true
  /\ spawned (trace (snd (run_main Worlds.trailing_link None)))
     = spawned (trace (snd (run_main Worlds.lone_file None)))
  /\ length (spawned (trace (snd (run_main Worlds.lone_file None)))) = 1
  /\ pace_view (trace (snd (run_main Worlds.lone_file None))) = [PSpawn]
  /\ pace_view (trace (snd (run_main Worlds.trailing_link None)))
     = [PSpawn; PSleep 30].
Proof. repeat split; vm_compute; reflexivity. Qed.

(** C2 at its failing input: [a.json] is accepted and [z.json], listed
    last, is rejected. The worker for [a.json] is the last one spawned, and
    the supervisor still waits 30 seconds after it. *)
Lemma C2_wait_after_last_spawn :
  fst (run_main Worlds.trailing_link None) = Done tt
  /\ map (fun cfg => cfg !! "cookie_file")
         (spawned (trace (snd (run_main Worlds.trailing_link None))))
     = [Some "a.json"]
  /\ pace_view (trace (snd (run_main Worlds.trailing_link None)))
     = [PSpawn; PSleep 30].
Proof. repeat split; vm_compute; reflexivity. Qed.

(** C4, as stated, fails: [loop.json] resolves to the cookies directory
    itself, which is not strictly within it, yet the profile passes every
    check and a worker is spawned for it. *)
Lemma C4_link_to_directory_itself_accepted :
  ~ strictly_within
      (resolve Worlds.self_link (cookies_dir Worlds.self_link))
      (resolve Worlds.self_link
         (Path.join (resolve Worlds.self_link (cookies_dir Worlds.self_link))
                    "loop.json"))
  /\ Str.basename "loop.json" = "loop.json"
  /\ is_json "loop.json" = true
  /\ is_skip (check_profile Worlds.self_link
                (global_settings_of Worlds.self_link "https://x.test")
                (profile_of "loop.json")) = false
  /\ map (fun cfg => cfg !! "cookie_file")
         (spawned (trace (snd (run_main Worlds.self_link None))))
     = [Some "loop.json"].
Proof.
  repeat split; try (vm_compute; reflexivity).
  intros (rest & Hrest & E). vm_compute in E.
  destruct rest; [contradiction | discriminate].
Qed.

(** *** The theorems at work on the sample worlds *)

(** C1 at work: two workers that run until signalled, Ctrl+C during the
    second blocking call, which is the first join; another Ctrl+C is
    scheduled but the run ends before it arrives. Both workers are
    signalled and awaited, and [main] returns. *)
Lemma C1_interrupt_while_supervising_witness :
  (forall e, fst (run_main_with Sample.two (Some 1) [5] []) <> Raised e)
  /\ started_handles (trace (snd (run_main_with Sample.two (Some 1) [5] [])))
     = seq 0 2
  /\ fst (run_main_with Sample.two (Some 1) [5] []) = Done tt
  /\ terminated (trace (snd (run_main_with Sample.two (Some 1) [5] [])))
     = seq 0 2
  /\ [ELog INFO CaughtCtrlC; ETerminate 0; EJoin 0; ETerminate 1; EJoin 1;
      ELog INFO AllTerminated]
     = [ELog INFO CaughtCtrlC] ++ sweep (seq 0 2)
       ++ [ELog INFO AllTerminated].
Proof.
  destruct (C1_interrupt_while_supervising Sample.two (Some 1) [5] []
              (fst (run_main_with Sample.two (Some 1) [5] []))
              (snd (run_main_with Sample.two (Some 1) [5] [])) 2
              (discovery_trace Sample.two "https://x.test"
               ++ main_script Sample.two "https://x.test") []
              [ELog INFO CaughtCtrlC; ETerminate 0; EJoin 0; ETerminate 1;
               EJoin 1; ELog INFO AllTerminated])
    as (Hcaught & Hstarted & Hobeyed & _).
  - apply surjective_pairing.
  - vm_compute. reflexivity.
  - vm_compute. reflexivity.
  - split; [exact Hcaught|]. split; [exact Hstarted|].
    apply Hobeyed. intros [|[|h]] Hh; [discriminate | discriminate | lia].
Defined.

(** C3 at work: of the three entries two are valid credential files; the
    run has no Ctrl+C and every path can be resolved, so that no exception
    ends it, and two workers are spawned. *)
Lemma C3_one_worker_per_valid_profile_witness :
  fst (run_main_with Sample.two None [] []) <> Raised KeyboardInterrupt
  /\ fst (run_main_with Sample.two None [] []) <> Raised RuntimeError
  /\ spawned (trace (snd (run_main_with Sample.two None [] [])))
     = map (fun f => <["cookie_file" := f]>
                       (global_settings_of Sample.two "https://x.test"))
           ["alice.json"; "bob.JSON"]
  /\ length (spawned (trace (snd (run_main_with Sample.two None [] [])))) = 2
  /\ started_handles (trace (snd (run_main_with Sample.two None [] [])))
     = seq 0 2
  /\ Forall2 (fun cfg f => cfg !! "url" = Some "https://x.test"
                           /\ cfg !! "cookie_file" = Some f)
             (spawned (trace (snd (run_main_with Sample.two None [] []))))
             ["alice.json"; "bob.JSON"].
Proof.
  destruct (C3_one_worker_per_valid_profile Sample.two None [] []
              "https://x.test" ["alice.json"; "notes.txt"; "bob.JSON"]
              ["alice.json"; "bob.JSON"] 2
              (fst (run_main_with Sample.two None [] []))
              (snd (run_main_with Sample.two None [] [])))
    as (Hcalm & Hsound & Hspawned).
  - vm_compute. reflexivity.
  - reflexivity.
  - apply picks_keep.
    { apply credential_ok_spec. reflexivity. }
    apply picks_drop.
    { intros H. apply credential_ok_spec in H. vm_compute in H.
      discriminate. }
    apply picks_keep; [|constructor].
    apply credential_ok_spec. reflexivity.
  - reflexivity.
  - apply surjective_pairing.
  - split; [exact (Hcalm eq_refl)|]. split; [exact (Hsound eq_refl)|].
    apply Hspawned. intros [|]; [exact (Hcalm eq_refl) | exact (Hsound eq_refl)].
Defined.

(** C4 at work: [z.json] is a link to [/etc/hostname]. *)
Lemma C4_escaping_path_rejected_witness :
  is_skip (check_profile Worlds.trailing_link
             (global_settings_of Worlds.trailing_link "https://x.test")
             (profile_of "z.json")) = true.
Proof.
  apply (C4_escaping_path_rejected Worlds.trailing_link _ _ "z.json").
  - vm_compute. reflexivity.
  - intros (rest & _ & E). vm_compute in E. discriminate.
  - vm_compute. discriminate.
Defined.

(** C5 at work: a name with a parent-directory component. *)
Lemma C5_separator_rejected_witness :
  is_skip (check_profile Sample.two
             (global_settings_of Sample.two "https://x.test")
             (profile_of "../alice.json")) = true.
Proof.
  apply (C5_separator_rejected Sample.two _ _ "../alice.json").
  - vm_compute. reflexivity.
  - reflexivity.
Defined.

(** C6 at work: [notes.txt] is skipped, [bob.JSON] passes the test. *)
Lemma C6_extension_checked_ignoring_case_witness :
  is_skip (check_profile Sample.two
             (global_settings_of Sample.two "https://x.test")
             (profile_of "notes.txt")) = true
  /\ is_json "bob.JSON" = true.
Proof.
  split.
  - apply (C6_extension_checked_ignoring_case Sample.two _ "notes.txt").
    + intros H. apply is_json_spec in H. vm_compute in H. discriminate.
    + vm_compute. reflexivity.
  - apply (C6_extension_checked_ignoring_case Sample.two ∅ "bob.JSON").
    exists "bob", ".JSON". split; [reflexivity|].
    repeat constructor; right; left; split; reflexivity.
Defined.

(** C7 at work: the variable holds white space, some of it outside
    ASCII. *)
Lemma C7_missing_endpoint_halts_witness :
  exists s,
    run_main Worlds.blank_url (Some 0) = (Done tt, s)
    /\ trace s = [EMakedirs LogsDir; EMakedirs CookiesDir;
                  ELog INFO ManagerStarting;
                  ELog ERROR MissingUrl; ELog ERROR NoInstances]
    /\ spawned (trace s) = []
    /\ ~ In EIsDir (trace s) /\ ~ In EListDir (trace s).
Proof.
  apply C7_missing_endpoint_halts.
  right. exists Worlds.blanks. split; vm_compute; reflexivity.
Defined.

(** C8 at work: both credential files are links leading outside. *)
Lemma C8_no_valid_profile_no_spawn_witness :
  exists s,
    run_main Worlds.only_links (Some 0) = (Done tt, s)
    /\ spawned (trace s) = []
    /\ (forall h, ~ In (EJoin h) (trace s))
    /\ (forall n, ~ In (ELog INFO (AllStarted n)) (trace s))
    /\ (forall secs, ~ In (ESleep secs) (trace s))
    /\ exists tr, trace s = tr ++ [ELog ERROR NoValidInstance].
Proof.
  apply (C8_no_valid_profile_no_spawn Worlds.only_links (Some 0)
           "https://x.test").
  - vm_compute. reflexivity.
  - vm_compute. discriminate.
  - vm_compute. repeat constructor.
Defined.

(** C10 at work: the cookies directory does not exist at the start. *)
Lemma C10_missing_directory_branch_unreachable_witness :
  (forall l p,
     ~ In (ELog l (CookiesDirMissing p))
          (trace (snd (run_main Worlds.no_directory None))))
  /\ In (ELog ERROR (NoCookieFiles (cookies_dir Worlds.no_directory)))
        (trace (snd (run_main Worlds.no_directory None))).
Proof.
  destruct (C10_missing_directory_branch_unreachable Worlds.no_directory None
              (fst (run_main Worlds.no_directory None))
              (snd (run_main Worlds.no_directory None))
              (surjective_pairing _)) as (Hnever & Hmissing & _).
  split; [exact Hnever|].
  apply Hmissing; [reflexivity | vm_compute; discriminate].
Defined.

End Claims.

(** * Further properties of the code *)

(** ** Trimming environment values *)

Section CutFacts.

Context (ps : list (list ascii)).
Hypothesis nonempty : forall p, In p ps -> p <> [].

Lemma cut_prefix_spec p : forall l r,
  Str.cut_prefix p l = Some r <-> l = p ++ r.
Proof.
  induction p as [|a p IH]; intros l r; simpl.
  - split; [now intros [= ->] | now intros ->].
  - destruct l as [|b l]; [split; discriminate|].
    destruct (Ascii.eqb a b) eqn:E.
    + apply Ascii.eqb_eq in E. subst b. rewrite IH. split; congruence.
    + apply Ascii.eqb_neq in E. split; [discriminate | congruence].
Qed.

Lemma cut_one_some l r :
  Str.cut_one ps l = Some r -> exists p, In p ps /\ l = p ++ r.
Proof.
  clear nonempty. induction ps as [|p ps' IH]; simpl; [discriminate|].
  destruct (Str.cut_prefix p l) as [r'|] eqn:E.
  - intros [= ->]. apply cut_prefix_spec in E. eauto.
  - intros H. destruct (IH H) as (q & Hq & ->). eauto.
Qed.

Lemma cut_one_none l :
  Str.cut_one ps l = None -> forall p r, In p ps -> l <> p ++ r.
Proof.
  clear nonempty. induction ps as [|p ps' IH]; simpl; [tauto|].
  destruct (Str.cut_prefix p l) as [r'|] eqn:E; [discriminate|].
  intros H q r [<- | Hq] El.
  - apply cut_prefix_spec in El. congruence.
  - exact (IH H q r Hq El).
Qed.

Lemma cut_one_found l :
  (forall p r, In p ps -> l <> p ++ r) -> Str.cut_one ps l = None.
Proof.
  intros H. destruct (Str.cut_one ps l) as [r|] eqn:E; [|reflexivity].
  apply cut_one_some in E as (p & Hp & El). now destruct (H p r Hp).
Qed.

Lemma cut_all_fixed fuel l :
  Str.cut_one ps l = None -> Str.cut_all ps fuel l = l.
Proof. intros H. destruct fuel; simpl; [reflexivity | now rewrite H]. Qed.

(** What [cut_all] removes is a run of members of [ps], and what it leaves
    starts with none. *)
Lemma cut_all_spec fuel : forall l,
  length l <= fuel ->
  exists ws,
    Forall (fun p => In p ps) ws
    /\ l = concat ws ++ Str.cut_all ps fuel l
    /\ Str.cut_one ps (Str.cut_all ps fuel l) = None.
Proof.
  induction fuel as [|fuel IH]; intros l Hl.
  - destruct l; [|simpl in Hl; lia]. exists []. simpl.
    repeat split; [constructor|]. apply cut_one_found.
    intros p r Hp E. symmetry in E. apply app_eq_nil in E as [-> _].
    now apply (nonempty []).
  - simpl. destruct (Str.cut_one ps l) as [r|] eqn:E.
    + apply cut_one_some in E as (p & Hp & ->).
      assert (Hr : length r <= fuel).
      { rewrite length_app in Hl. pose proof (nonempty p Hp).
        destruct p; [congruence | simpl in Hl; lia]. }
      destruct (IH r Hr) as (ws & Hws & Hr' & Hnone).
      exists (p :: ws). repeat split; [now constructor | | exact Hnone].
      simpl. rewrite <- app_assoc. now f_equal.
    + exists []. repeat split; [constructor | exact E].
Qed.

(** A run of members of [ps] that is not empty starts with one of them. *)
Lemma concat_head ws :
  Forall (fun p => In p ps) ws -> concat ws <> [] ->
  exists p r, In p ps /\ concat ws = p ++ r.
Proof.
  intros H Hne. destruct H as [|p ws Hp _]; [contradiction|]. simpl. eauto.
Qed.

End CutFacts.

Section StripFacts.

Lemma whitespace_nonempty p : In p Str.whitespace -> p <> [].
Proof.
  intros H ->. revert H. vm_compute. intuition discriminate.
Qed.

Lemma rev_whitespace_nonempty p :
  In p (map (@rev ascii) Str.whitespace) -> p <> [].
Proof.
  intros H. apply in_map_iff in H as (q & <- & Hq) .
  intros E. apply (whitespace_nonempty q Hq).
  apply (f_equal (@rev ascii)) in E. now rewrite rev_involutive in E.
Qed.

(** No white-space character's encoding starts another's. *)
Lemma whitespace_prefix_free p q r r' :
  In p Str.whitespace -> In q Str.whitespace -> p ++ r = q ++ r' -> p = q.
Proof.
  intros Hp Hq E.
  assert (Hcheck : forallb (fun a => forallb (fun b =>
            match Str.cut_prefix a b with
            | Some _ => bool_decide (a = b)
            | None => true
            end) Str.whitespace) Str.whitespace = true)
    by (vm_compute; reflexivity).
  rewrite forallb_forall in Hcheck.
  assert (Hpre : forall a b x y : list ascii, a ++ x = b ++ y ->
            (exists z, b = a ++ z) \/ (exists z, a = b ++ z)).
  { induction a as [|c a IH]; intros b x y H; [left; now exists b|].
    destruct b as [|d b]; [right; now exists (c :: a)|].
    injection H as -> H. destruct (IH _ _ _ H) as [[z ->] | [z ->]];
      [left | right]; now exists z. }
  destruct (Hpre _ _ _ _ E) as [[z Hz] | [z Hz]].
  - specialize (Hcheck p Hp). rewrite forallb_forall in Hcheck.
    specialize (Hcheck q Hq).
    destruct (Str.cut_prefix p q) as [z'|] eqn:Ec.
    + now apply bool_decide_eq_true in Hcheck.
    + apply (cut_prefix_spec p q z) in Hz. congruence.
  - specialize (Hcheck q Hq). rewrite forallb_forall in Hcheck.
    specialize (Hcheck p Hp).
    destruct (Str.cut_prefix q p) as [z'|] eqn:Ec.
    + apply bool_decide_eq_true in Hcheck. congruence.
    + apply (cut_prefix_spec q p z) in Hz. congruence.
Qed.

Lemma rev_concat_rev (ws : list (list ascii)) :
  rev (concat ws) = concat (map (@rev ascii) (rev ws)).
Proof.
  induction ws as [|p ws IH]; [reflexivity|].
  simpl. rewrite rev_app_distr, IH, map_app, concat_app. simpl.
  now rewrite app_nil_r.
Qed.

(** Trimming on the left removes a blank and leaves no leading white
    space. *)
Lemma lstrip_spec l :
  exists a, blank a /\ l = a ++ Str.lstrip_chars l
            /\ Str.cut_one Str.whitespace (Str.lstrip_chars l) = None.
Proof.
  destruct (cut_all_spec Str.whitespace whitespace_nonempty (length l) l
              (le_n _)) as (ws & Hws & Hl & Hnone).
  exists (concat ws). split; [now exists ws | now split].
Qed.

(** Trimming on the right removes a blank and leaves no trailing white
    space. *)
Lemma rstrip_spec l :
  exists b, blank b /\ l = Str.rstrip_chars l ++ b
            /\ Str.cut_one (map (@rev ascii) Str.whitespace)
                 (rev (Str.rstrip_chars l)) = None.
Proof.
  unfold Str.rstrip_chars.
  destruct (cut_all_spec _ rev_whitespace_nonempty (length l) (rev l))
    as (ws & Hws & Hl & Hnone); [now rewrite length_rev|].
  exists (concat (map (@rev ascii) (rev ws))). repeat split.
  - exists (map (@rev ascii) (rev ws)). split; [|reflexivity].
    apply List.Forall_forall. intros p Hp.
    apply in_map_iff in Hp as (q & <- & Hq). apply in_rev in Hq.
    rewrite List.Forall_forall in Hws. apply Hws in Hq.
    apply in_map_iff in Hq as (p & <- & Hp). now rewrite rev_involutive.
  - apply (f_equal (@rev ascii)) in Hl.
    now rewrite rev_involutive, rev_app_distr, rev_concat_rev in Hl.
  - now rewrite rev_involutive.
Qed.

(** A blank is trimmed to nothing. *)
Lemma cut_all_blank ws : forall fuel,
  Forall (fun p => In p Str.whitespace) ws ->
  length (concat ws) <= fuel ->
  Str.cut_all Str.whitespace fuel (concat ws) = [].
Proof.
  induction ws as [|p ws IH]; intros fuel Hws Hlen.
  - now destruct fuel.
  - inversion Hws as [|? ? Hp Hrest]; subst. cbn [concat] in *.
    pose proof (whitespace_nonempty p Hp) as Hne.
    rewrite length_app in Hlen.
    destruct fuel as [|fuel]; [destruct p; [congruence | simpl in Hlen; lia]|].
    cbn [Str.cut_all].
    destruct (Str.cut_one Str.whitespace (p ++ concat ws)) as [r|] eqn:E.
    + apply cut_one_some in E as (q & Hq & E).
      pose proof (whitespace_prefix_free _ _ _ _ Hp Hq E) as <-.
      apply app_inv_head in E. subst r. apply IH; [assumption|].
      destruct p; [congruence | simpl in Hlen; lia].
    + now destruct (cut_one_none _ _ E p (concat ws) Hp).
Qed.

Lemma chars_of_string_inj (a b : string) :
  list_ascii_of_string a = list_ascii_of_string b -> a = b.
Proof.
  intros H. rewrite <- (string_of_list_ascii_of_string a),
    <- (string_of_list_ascii_of_string b). now rewrite H.
Qed.

Lemma strip_chars s :
  list_ascii_of_string (Str.strip s)
  = Str.rstrip_chars (Str.lstrip_chars (list_ascii_of_string s)).
Proof. unfold Str.strip. apply list_ascii_of_string_of_list_ascii. Qed.

(** [strip] removes a blank at each end and leaves white space at
    neither. *)
Lemma strip_spec s :
  exists a b,
    blank a /\ blank b
    /\ list_ascii_of_string s = a ++ list_ascii_of_string (Str.strip s) ++ b
    /\ (forall p rest, In p Str.whitespace ->
          list_ascii_of_string (Str.strip s) <> p ++ rest)
    /\ (forall front p, In p Str.whitespace ->
          list_ascii_of_string (Str.strip s) <> front ++ p).
Proof.
  rewrite strip_chars.
  destruct (lstrip_spec (list_ascii_of_string s)) as (a & Ha & Hl & Hnl).
  destruct (rstrip_spec (Str.lstrip_chars (list_ascii_of_string s)))
    as (b & Hb & Hr & Hnr).
  exists a, b. repeat split; try assumption.
  - now rewrite <- Hr.
  - intros p rest Hp E.
    apply (cut_one_none _ _ Hnl p (rest ++ b) Hp).
    rewrite Hr at 1. rewrite E. now rewrite <- app_assoc.
  - intros front p Hp E.
    apply (cut_one_none _ _ Hnr (rev p) (rev front)).
    + apply in_map_iff. now exists p.
    + now rewrite E, rev_app_distr.
Qed.

(** [strip] answers the empty string exactly on a blank. *)
Lemma strip_blank s :
  Str.strip s = "" <-> blank (list_ascii_of_string s).
Proof.
  split.
  - intros E. destruct (strip_spec s) as (a & b & Ha & Hb & Hs & _).
    destruct (lstrip_spec (list_ascii_of_string s)) as (a' & Ha' & Hl & Hnl).
    destruct (rstrip_spec (Str.lstrip_chars (list_ascii_of_string s)))
      as (b' & [ws [Hws ->]] & Hr & _).
    rewrite <- strip_chars, E in Hr. simpl in Hr.
    destruct (concat ws) as [|c r] eqn:Ec.
    + rewrite Hr, app_nil_r in Hl. now rewrite Hl.
    + exfalso. destruct (concat_head _ ws Hws) as (p & r' & Hp & Ep);
        [now rewrite Ec|].
      apply (cut_one_none _ _ Hnl p r' Hp). now rewrite Hr, <- Ec.
  - intros (ws & Hws & E). apply chars_of_string_inj.
    rewrite strip_chars. unfold Str.lstrip_chars.
    rewrite E, (cut_all_blank ws _ Hws (le_n _)). reflexivity.
Qed.

Lemma strip_idem s : Str.strip (Str.strip s) = Str.strip s.
Proof.
  destruct (strip_spec s) as (_ & _ & _ & _ & _ & Hl & Hr).
  apply chars_of_string_inj. rewrite (strip_chars (Str.strip s)).
  set (r := list_ascii_of_string (Str.strip s)) in *.
  unfold Str.lstrip_chars.
  rewrite (cut_all_fixed _ _ r) by (apply cut_one_found; exact Hl).
  unfold Str.rstrip_chars.
  rewrite cut_all_fixed; [apply rev_involutive|].
  apply cut_one_found. intros p rest Hp E.
  apply in_map_iff in Hp as (q & <- & Hq).
  apply (Hr (rev rest) q Hq).
  apply (f_equal (@rev ascii)) in E.
  now rewrite rev_involutive, rev_app_distr, rev_involutive in E.
Qed.

(** X1. [_clean_env_value] answers [None] for a missing value and for a
    value made of white space only, and for no other; otherwise it answers
    the value without the white space at its two ends, which is not empty
    and neither starts nor ends with a white-space character. Cleaning a
    cleaned value changes nothing. *)
Theorem X1_clean_env_value_normal_form (raw : option string) :
  match raw, _clean_env_value raw with
  | None, r => r = None
  | Some v, None => blank (list_ascii_of_string v)
  | Some v, Some r =>
      r = Str.strip v /\ r <> ""
      /\ ~ blank (list_ascii_of_string v)
      /\ (exists a b,
            blank a /\ blank b
            /\ list_ascii_of_string v = a ++ list_ascii_of_string r ++ b)
      /\ (forall p rest, In p Str.whitespace ->
            list_ascii_of_string r <> p ++ rest)
      /\ (forall front p, In p Str.whitespace ->
            list_ascii_of_string r <> front ++ p)
  end
  /\ _clean_env_value (_clean_env_value raw) = _clean_env_value raw.
Proof.
  destruct raw as [v|]; [|split; reflexivity]. simpl.
  destruct (String.eqb (Str.strip v) "") eqn:E.
  - apply String.eqb_eq in E. split; [|reflexivity]. now apply strip_blank.
  - apply String.eqb_neq in E. split.
    + destruct (strip_spec v) as (a & b & Ha & Hb & Hv & Hl & Hr).
      repeat split; try assumption.
      * intros Hblank. now apply strip_blank in Hblank.
      * now exists a, b.
    + simpl. rewrite strip_idem. apply String.eqb_neq in E. now rewrite E.
Qed.

End StripFacts.

(** ** Configurations, discovery and the dead checks of [main] *)

Section ConfigFacts.

(** What a run of [main] spawns was accepted by the checks. *)
Lemma main_spawned_accepted w ctrl_c out s cfg :
  run_main w ctrl_c = (out, s) ->
  In cfg (spawned (trace s)) ->
  exists url, shared_url w = Some url /\ In cfg (main_accepted w url).
Proof.
  intros Hrun Hin.
  apply run_main_shape, main_run_views in Hrun
    as [(_ & Hsp & _) | (url & Hurl & _ & [Hr | Hr])].
  - now rewrite Hsp in Hin.
  - destruct Hr as (_ & _ & pre & post & Hsc & Hsp & _).
    exists url. split; [assumption|]. unfold main_accepted.
    rewrite <- (spawned_script w _ (length (main_profiles w)) _ 1 0).
    fold (main_script w url). rewrite Hsc, spawned_app, <- Hsp.
    apply in_app_iff. now left.
  - destruct Hr as (_ & Hsp & _). exists url. now rewrite <- Hsp.
Qed.

(** X2. Every configuration a run of [main] hands to a worker has the
    shared endpoint as [url], the cleaned CAMOUFOX_HEADLESS or else
    ["virtual"] as [headless], a [proxy] exactly when CAMOUFOX_PROXY is set
    and not blank, the name of a discovered valid file as [cookie_file], and
    no other key. *)
Theorem X2_spawned_configuration_fields
    (w : World) (ctrl_c : option nat) (out : outcome unit) (s : state)
    (cfg : gmap string string) :
  run_main w ctrl_c = (out, s) ->
  In cfg (spawned (trace s)) ->
  cfg !! "url" = shared_url w
  /\ cfg !! "headless"
     = Some (default "virtual"
               (_clean_env_value (getenv w "CAMOUFOX_HEADLESS")))
  /\ cfg !! "proxy" = _clean_env_value (getenv w "CAMOUFOX_PROXY")
  /\ (exists f, In f (cookie_files w) /\ name_ok w f = true
                /\ cfg !! "cookie_file" = Some f)
  /\ (forall k, k <> "url" -> k <> "headless" -> k <> "proxy" ->
                k <> "cookie_file" -> cfg !! k = None).
Proof.
  intros Hrun Hin.
  destruct (main_spawned_accepted _ _ _ _ _ Hrun Hin) as (url & Hurl & Hacc).
  rewrite main_accepted_eq in Hacc.
  apply in_map_iff in Hacc as (f & <- & Hf).
  apply filter_In in Hf as [Hf Hok].
  rewrite Hurl. unfold global_settings_of.
  destruct (_clean_env_value (getenv w "CAMOUFOX_PROXY")) as [proxy|];
    repeat split;
    try (exists f; repeat split; try assumption);
    try intros k H1 H2 H3 H4;
    now simplify_map_eq.
Qed.

(** X3. When listing the cookies directory raises, the exception does not
    leave [load_instances_from_env]: the run logs the scan error and then
    "no instance configuration", spawns nothing and returns, whatever Ctrl+C
    is scheduled. *)
Theorem X3_listing_error_is_caught
    (w : World) (ctrl_c : option nat) (url err : string) :
  shared_url w = Some url ->
  cookies_at_start w = Unlistable err ->
  exists s,
    run_main w ctrl_c = (Done tt, s)
    /\ trace s = setup_trace
                 ++ [EIsDir; EListDir; ELog ERROR (ScanFailed err);
                     ELog ERROR NoInstances]
    /\ pending s = ctrl_c.
Proof.
  intros Hurl Hdir. unfold run_main, main, load_instances_from_env, start, start_with.
  unfold shared_url in Hurl. rewrite Hurl, Hdir.
  eexists. split; [reflexivity|]. split; reflexivity.
Qed.

(** X4. With the endpoint set and a cookies directory, missing or not,
    that holds no name ending in [.json] (case ignored), the run tests and
    lists the directory, logs "no cookie file found" and "no instance
    configuration", spawns nothing and returns. *)
Theorem X4_no_credential_file_halts
    (w : World) (ctrl_c : option nat) (url : string) :
  shared_url w = Some url ->
  (forall err, cookies_at_start w <> Unlistable err) ->
  cookie_files w = [] ->
  exists s,
    run_main w ctrl_c = (Done tt, s)
    /\ trace s = setup_trace
                 ++ [EIsDir; EListDir;
                     ELog ERROR (NoCookieFiles (cookies_dir w));
                     ELog ERROR NoInstances]
    /\ pending s = ctrl_c
    /\ cookies s <> Missing.
Proof.
  intros Hurl Hok Hnone. unfold run_main, main, load_instances_from_env, start, start_with.
  unfold shared_url in Hurl. rewrite Hurl. unfold cookie_files in Hnone.
  destruct (cookies_at_start w) as [|names|err] eqn:Hdir.
  - eexists. split; [reflexivity|]. repeat split. discriminate.
  - unfold mbind, M_bind, bind, makedirs, log, act, isdir, listdir. simpl.
    rewrite Hnone. eexists. split; [reflexivity|]. repeat split. discriminate.
  - now destruct (Hok err).
Qed.

(** The loop of [main] over discovered names logs only what
    [discovery_event] allows. *)
Lemma script_discovered w gs url n all files : forall i k,
  gs !! "url" = Some url ->
  (forall f, In f files -> is_json f = true /\ In f all) ->
  Forall (discovery_event w all) (script w gs n i (map profile_of files) k).
Proof.
  induction files as [|f files IH]; intros i k Hu Hfiles; [constructor|].
  cbn [map script]. apply Forall_app. split.
  - unfold one_script, profile_of.
    rewrite (discovered_verdict w gs f url Hu).
    destruct (Hfiles f (or_introl eq_refl)) as [Hj Hin].
    unfold name_ok. rewrite Hj.
    destruct (Str.has_sep f) eqn:Hs; simpl.
    + repeat constructor; assumption.
    + destruct (escapes w f) eqn:He; simpl.
      * repeat constructor; assumption.
      * destruct (Nat.ltb i n); repeat constructor.
  - apply IH; [assumption|]. intros g Hg. apply Hfiles. now right.
Qed.

(** A property of events that holds of the script of [main] and of every
    other piece of a run holds of the whole trace. *)
Lemma main_run_forall_script (P : event -> Prop) w ctrl_c out tr :
  main_run w ctrl_c out tr ->
  (forall url, shared_url w = Some url -> Forall P (main_script w url)) ->
  (forall e, supervise_event e -> P e) ->
  (forall d, P (EMakedirs d)) -> P EIsDir -> P EListDir ->
  (forall l m,
     match m with
     | MissingUrl | NoInstances | ScanFailed _ | NoCookieFiles _
     | FoundCookies _ _ | SharedUrl _ | ManagerStarting | NoValidInstance
     | AllStarted _ => True
     | _ => False
     end -> P (ELog l m)) ->
  Forall P tr.
Proof.
  intros H HL HS Hmk Hi Hl Hlog.
  assert (Hsetup : Forall P setup_trace)
    by (repeat constructor; auto; now apply Hlog).
  assert (Hdisc : forall url, Forall P (discovery_trace w url)).
  { intros url. apply Forall_app. split; [assumption|].
    repeat constructor; auto; now apply Hlog. }
  assert (Hjoins : forall l, Forall P (map EJoin l)).
  { intros l. eapply List.Forall_impl; [exact HS | apply joins_events]. }
  assert (Hsweep : forall l, Forall P (sweep l)).
  { intros l. eapply List.Forall_impl; [exact HS | apply sweep_events]. }
  destruct H as [ | | | url pre post Hurl ? ? Hsc | url Hurl | url Hurl
                | url joined Hurl | url joined Hurl
                | url joined swept h Hurl ];
    try specialize (HL url Hurl);
    repeat first
      [ assumption
      | apply Forall_app; split
      | apply Forall_cons; split
      | apply Forall_nil; exact I
      | apply Hdisc | apply Hjoins | apply Hsweep
      | apply Hlog; exact I
      | apply HS; exact I ].
  rewrite Hsc in HL. now apply Forall_app in HL as [Hpre _].
Qed.

(** X5. In [main] the checks of lines 86 and 97 never fire: no run logs a
    missing [cookie_file] or [url], nor a wrong extension, since discovery
    builds every profile with a [cookie_file] it has already filtered on
    [.json]. A path error is logged only for a listed name that contains a
    separator, and a location error only for a listed name without a
    separator that the containment test rejects. *)
Theorem X5_dead_checks_in_main
    (w : World) (ctrl_c : option nat) (out : outcome unit) (s : state) :
  run_main w ctrl_c = (out, s) ->
  (forall l c, ~ In (ELog l (NotJson c)) (trace s))
  /\ (forall l p, ~ In (ELog l (SkipInvalidItem p)) (trace s))
  /\ (forall l c, In (ELog l (NameCarriesPath c)) (trace s) ->
                  In c (cookie_files w) /\ Str.has_sep c = true)
  /\ (forall l c, In (ELog l (OutsideCookies c)) (trace s) ->
                  In c (cookie_files w) /\ Str.has_sep c = false
                  /\ escapes w c = true).
Proof.
  intros Hrun. apply run_main_shape in Hrun.
  assert (HP : Forall (discovery_event w (cookie_files w)) (trace s)).
  { eapply main_run_forall_script; [exact Hrun | ..]; try exact I.
    - intros url Hurl. unfold main_script, main_profiles.
      eapply script_discovered; [apply global_settings_url|].
      intros f Hf. split; [|assumption].
      unfold cookie_files in Hf.
      destruct (cookies_at_start w); try contradiction.
      now apply filter_In in Hf.
    - intros e He. destruct e; try exact I. now destruct m.
    - intros d. exact I.
    - intros l m Hm. now destruct m. }
  rewrite List.Forall_forall in HP.
  split; [|split; [|split]];
    intros l c Hin; apply HP in Hin; simpl in Hin; tauto.
Qed.

(** X6. A name that is its own base name, ends in [.json] and resolves to
    itself inside the resolved cookies directory (it is not a link) passes
    the containment test: with the endpoint among the settings, the profile
    is accepted. So the containment test can reject only names that resolve
    elsewhere than [cookies_root / name]. *)
Theorem X6_plain_name_is_accepted
    (w : World) (gs profile : gmap string string) (c : string) :
  profile !! "cookie_file" = Some c ->
  is_Some ((profile ∪ gs) !! "url") ->
  Str.basename c = c ->
  is_json c = true ->
  resolve w (resolve w (cookies_dir w) ++ [c])
  = resolve w (cookies_dir w) ++ [c] ->
  escapes w c = false
  /\ check_profile w gs profile = Accept (profile ∪ gs) c.
Proof.
  intros Hc [u Hu] Hb Hj Hplain.
  assert (Hs : Str.has_sep c = false) by (now apply basename_fixed).
  assert (Hesc : escapes w c = false).
  { destruct (escapes w c) eqn:E; [|reflexivity]. exfalso.
    apply escapes_spec in E as [Hout _]. apply Hout.
    rewrite (join_plain_name _ c Hs Hj), Hplain.
    exists [c]. split; [discriminate | reflexivity]. }
  split; [exact Hesc|]. unfold check_profile.
  now rewrite (merged_cookie_file _ _ _ Hc), Hu, Hb, String.eqb_refl, Hj, Hesc.
Qed.

(** X7. A profile whose merge with the global settings lacks [cookie_file]
    or [url] is skipped with a warning, whatever else it holds, and the loop
    spawns for the other profiles what it spawns without it. *)
Theorem X7_missing_field_is_a_warning
    (w : World) (gs profile : gmap string string) :
  (profile ∪ gs) !! "cookie_file" = None \/ (profile ∪ gs) !! "url" = None ->
  check_profile w gs profile = Skip WARNING (SkipInvalidItem profile)
  /\ (forall before after,
       spawned (launch_trace w gs (before ++ profile :: after) None)
       = spawned (launch_trace w gs (before ++ after) None)).
Proof.
  intros H.
  assert (E : check_profile w gs profile
              = Skip WARNING (SkipInvalidItem profile)).
  { unfold check_profile. destruct H as [-> | ->]; [reflexivity|].
    now destruct (_ !! "cookie_file"). }
  split; [exact E|]. intros before after.
  apply skipped_profile_transparent. now rewrite E.
Qed.

(** X13. [load_instances_from_env] always returns, leaving the pending
    Ctrl+C and the directory as they were. When it returns no profiles the
    last thing it did was to log an error; when it returns profiles there is
    at least one, they are, in listing order, one [cookie_file] entry per
    listed name ending in [.json], and the settings returned with them
    carry the cleaned endpoint as [url]. *)
Theorem X13_load_instances_contract (w : World) (s : state) :
  exists r s',
    load_instances_from_env w s = (Done r, s')
    /\ pending s' = pending s /\ cookies s' = cookies s
    /\ signalled s' = signalled s
    /\ match r with
       | None => exists tr m, trace s' = tr ++ [ELog ERROR m]
       | Some (global_settings, instances) =>
           instances <> []
           /\ global_settings !! "url" = shared_url w
           /\ is_Some (shared_url w)
           /\ exists names,
                cookies s = Listable names
                /\ instances = map profile_of (List.filter is_json names)
       end.
Proof.
  unfold load_instances_from_env, shared_url.
  destruct (_clean_env_value (getenv w "CAMOUFOX_INSTANCE_URL")) as [url|].
  2:{ eexists _, _. split; [reflexivity|]. repeat split. now eexists _, _. }
  unfold mbind, M_bind, bind, mret, M_ret, ret, isdir, listdir, log, act.
  destruct s as [tr p lt br sg [|names|err]]; simpl.
  - eexists _, _. split; [reflexivity|]. repeat split; auto.
    now eexists _, _.
  - destruct (List.filter is_json names) as [|f fs] eqn:Hf; simpl.
    + eexists _, _. split; [reflexivity|]. repeat split; auto.
      now eexists _, _.
    + eexists _, _. split; [reflexivity|]. simpl.
      repeat (split; [reflexivity|]).
      split; [discriminate|]. split; [apply global_settings_url|].
      split; [now exists url|]. exists names. now rewrite Hf.
  - eexists _, _. split; [reflexivity|]. repeat split; auto.
    now eexists _, _.
Qed.

End ConfigFacts.

(** ** Pacing and supervision *)

Section SupervisionFacts.

(** With every profile accepted the loop alternates spawns and waits and
    ends on a spawn. *)
Lemma script_all_accepted w gs n profiles : forall i k,
  Forall (fun p => is_skip (check_profile w gs p) = false) profiles ->
  i + length profiles = S n ->
  pace_view (script w gs n i profiles k) = alternation (length profiles).
Proof.
  induction profiles as [|p rest IH]; intros i k Hall Hlen; [reflexivity|].
  inversion Hall as [|? ? Hp Hrest]; subst.
  cbn [script]. rewrite pace_view_app. simpl in Hlen.
  rewrite (IH (S i) _ Hrest) by lia.
  unfold one_script. destruct (check_profile w gs p); [|discriminate].
  destruct rest as [|q rest].
  - simpl in Hlen. replace (Nat.ltb i n) with false; [reflexivity|].
    symmetry. apply Nat.ltb_ge. lia.
  - simpl in Hlen. replace (Nat.ltb i n) with true; [reflexivity|].
    symmetry. apply Nat.ltb_lt. lia.
Qed.

(** X8. When every discovered credential file is valid, a run that no
    Ctrl+C cuts short while pacing spawns one worker per file and waits 30
    seconds between each two successive spawns and not after the last: [N]
    spawns, [N - 1] waits. *)
Theorem X8_all_valid_is_paced_without_trailing_wait
    (w : World) (ctrl_c : option nat) (url : string)
    (out : outcome unit) (s : state) :
  shared_url w = Some url ->
  Forall (fun f => name_ok w f = true) (cookie_files w) ->
  run_main w ctrl_c = (out, s) ->
  out <> Raised KeyboardInterrupt ->
  pace_view (trace s) = alternation (length (cookie_files w))
  /\ length (spawned (trace s)) = length (cookie_files w).
Proof.
  intros Hurl Hall Hrun Hout.
  assert (Hskip : Forall (fun p => is_skip (check_profile w
                    (global_settings_of w url) p) = false) (main_profiles w)).
  { unfold main_profiles. apply List.Forall_forall. intros p Hp.
    apply in_map_iff in Hp as (f & <- & Hf).
    rewrite List.Forall_forall in Hall. unfold profile_of.
    rewrite (discovered_verdict w _ f url (global_settings_url w url)).
    now rewrite (Hall f Hf). }
  assert (Hfilter : List.filter (name_ok w) (cookie_files w) = cookie_files w).
  { clear - Hall. induction Hall as [|f l Hf _ IH]; [reflexivity|].
    simpl. now rewrite Hf, IH. }
  apply run_main_shape, main_run_views in Hrun
    as [(_ & Hsp & Hv & _ & [E | E]) | (url' & Hurl' & _ & [Hr | Hr])].
  - congruence.
  - now rewrite Hsp, Hv, E.
  - now destruct Hr as (-> & _).
  - destruct Hr as (_ & Hsp & Hv & _).
    assert (url' = url) by congruence. subst url'.
    rewrite Hsp, Hv, main_accepted_eq, Hfilter, length_map. split; [|reflexivity].
    unfold main_script.
    rewrite (script_all_accepted w _ _ (main_profiles w) 1 0 Hskip eq_refl).
    unfold main_profiles. now rewrite length_map.
Qed.

(** The join loop when no Ctrl+C is due and nobody was signalled: it ends
    exactly when every worker ends by itself. *)
Lemma join_all_quiet w processes : forall s,
  pending s = None -> signalled s = [] ->
  fst (join_all w processes s)
  = if forallb (exits_alone w) processes then Done tt else Blocked.
Proof.
  induction processes as [|h rest IH]; intros s Hp Hs; [reflexivity|].
  cbn [join_all forallb].
  unfold mbind, M_bind, bind, join_process, blocking, stuck, exits,
    exits_alone.
  rewrite Hp, Hs.
  destruct (worker w h); simpl; try reflexivity.
  specialize (IH (emit (EJoin h) s) Hp Hs).
  destruct (join_all w rest _) as [[[]| |] s']; exact IH.
Qed.

(** X9. A Ctrl+C received during a pacing wait (the wait was announced
    and the next event is the interrupt) is not caught: it leaves [main] as
    a KeyboardInterrupt. At that point at least one worker has been started,
    the last thing done before the wait was a spawn, no worker has been
    signalled or joined, and the join phase was never announced. *)
Theorem X9_pacing_interrupt_escapes
    (w : World) (ctrl_c : option nat) (more : list nat)
    (unresolvable : list path) (out : outcome unit) (s : state)
    (before : list event) :
  run_main_with w ctrl_c more unresolvable = (out, s) ->
  trace s = before ++ [ELog INFO Waiting30; EInterrupt] ->
  out = Raised KeyboardInterrupt
  /\ (exists view, pace_view (trace s) = view ++ [PSpawn])
  /\ spawned (trace s) <> []
  /\ terminated (trace s) = []
  /\ (forall h, ~ In (EJoin h) (trace s))
  /\ (forall l n, ~ In (ELog l (AllStarted n)) (trace s)).
Proof.
  intros Hrun Hlast.
  assert (Hint : interrupts (trace s) <> 0).
  { rewrite Hlast, interrupts_app. simpl. lia. }
  assert (Hquiet : forall url l,
    Forall launch_event l -> interrupts (discovery_trace w url ++ l) = 0).
  { intros url l Hl. rewrite interrupts_app. simpl.
    now apply interrupts_launch. }
  destruct (shared_url w) as [url|] eqn:Hurl.
  2:{ now destruct (run_main_with_early _ _ _ _ _ _ Hrun (or_introl Hurl))
        as (_ & _ & _ & _ & _ & Hi & _). }
  destruct (cookie_files w) as [|f fs] eqn:Hcf.
  { destruct (run_main_with_early _ _ _ _ _ _ Hrun)
      as (_ & _ & _ & _ & _ & Hi & _); [now right | contradiction]. }
  assert (Hne : cookie_files w <> []) by (rewrite Hcf; discriminate).
  pose proof (main_script_events w url) as Hev.
  destruct (run_main_with_launched _ _ _ _ url _ _ Hurl Hne Hrun)
    as [(-> & _ & pre & post & Hsc & Ht)
       | [(_ & _ & pre & post & Hsc & Ht)
         | [(_ & _ & Ht) | (Hacc & s2 & Ht2 & _ & _ & Hsup)]]].
  - rewrite Hsc in Hev. apply Forall_app in Hev as [Hpre _].
    pose proof (script_paced w (global_settings_of w url)
                  (length (main_profiles w)) (main_profiles w) 1 0 eq_refl)
      as Hp.
    fold (main_script w url) in Hp. rewrite Hsc, pace_view_app in Hp.
    simpl in Hp.
    destruct (paced_before_wait _ Hp _ _ _ eq_refl) as [_ [t0 Ht0]].
    assert (Hview : pace_view (discovery_trace w url ++ pre ++ [EInterrupt])
                    = t0 ++ [PSpawn]).
    { rewrite !pace_view_app. simpl. now rewrite app_nil_r. }
    assert (Hin : forall x, In x (discovery_trace w url ++ pre ++ [EInterrupt])
                  -> match x with
                     | EJoin _ | ETerminate _ | ELog _ (AllStarted _) => False
                     | _ => True
                     end).
    { intros x Hx. rewrite !in_app_iff in Hx. destruct Hx as [Hx | [Hx | Hx]].
      - apply in_discovery_trace in Hx.
        destruct x; try exact I; try contradiction. now destruct m.
      - apply (in_launch_events _ _ Hpre) in Hx.
        destruct x; try exact I; try contradiction. now destruct m.
      - simpl in Hx. destruct Hx as [<- | []]. exact I. }
    rewrite Ht.
    split; [reflexivity|]. split; [now exists t0|]. split; [|split; [|split]].
    + intros Hsp. apply pace_view_no_spawn in Hsp. apply Hsp.
      rewrite Hview. apply in_app_iff. right. now left.
    + rewrite !terminated_app. simpl.
      rewrite (terminated_none launch_event pre); [reflexivity | | assumption].
      intros h Hh. exact Hh.
    + intros h Hh. exact (Hin _ Hh).
    + intros l n Hn. exact (Hin _ Hn).
  - exfalso. apply Hint. rewrite Ht. apply Hquiet.
    rewrite Hsc in Hev. now apply Forall_app in Hev as [Hpre _].
  - exfalso. apply Hint. rewrite Ht, app_assoc, interrupts_app. simpl.
    rewrite Nat.add_0_r. now apply (Hquiet url).
  - (* in the join phase no interrupt follows the announcement of a wait *)
    exfalso. destruct (supervise_any _ _ _ _ _ Hsup) as (d & Ht & Hd & _).
    assert (E : rev (before ++ [ELog INFO Waiting30; EInterrupt])
                = rev ((discovery_trace w url ++ main_script w url
                        ++ [ELog INFO
                              (AllStarted (length (main_accepted w url)))])
                       ++ d))
      by (now rewrite <- Hlast, Ht, Ht2).
    rewrite !rev_app_distr in E. simpl in E.
    apply Forall_rev in Hd.
    destruct (rev d) as [|e1 [|e2 r]]; simpl in E.
    + discriminate.
    + injection E as _ E. discriminate.
    + injection E as _ E _. inversion Hd as [|? ? _ Hr]; subst.
      inversion Hr as [|? ? H2 _]; subst. exact H2.
Qed.

(** Without Ctrl+C and with nobody signalled, the supervising phase only
    joins: it ends exactly when every worker ends by itself, having joined
    them all, and waits for ever otherwise. *)
Lemma supervise_quiet_run w processes s2 out s :
  pending s2 = None -> signalled s2 = [] ->
  supervise w processes s2 = (out, s) ->
  out = (if forallb (exits_alone w) processes then Done tt else Blocked)
  /\ exists joined,
       trace s = trace s2 ++ map EJoin joined
       /\ (out = Done tt -> joined = processes).
Proof.
  intros Hp Hs. unfold supervise, try_except.
  pose proof (join_all_quiet w processes s2 Hp Hs) as Hq.
  pose proof (join_all_run w processes s2) as HJ.
  destruct (join_all w processes s2) as [[[]|[|]|] s1]; simpl in Hq;
    [| now destruct HJ as [Hn _] | contradiction |]; intros [= <- <-].
  - split; [exact Hq|]. now exists processes.
  - split; [exact Hq|]. destruct HJ as (_ & joined & Ht).
    exists joined. split; [exact Ht | discriminate].
Qed.

(** X10. A run with no Ctrl+C never signals a worker. Once it has
    announced the join phase it does not raise: it returns exactly when
    every worker it started ends by itself, and otherwise waits for ever in
    the join loop. When it returns it has joined every worker it started,
    in spawn order. *)
Theorem X10_run_without_interrupt
    (w : World) (more : list nat) (unresolvable : list path)
    (out : outcome unit) (s : state) :
  run_main_with w None more unresolvable = (out, s) ->
  terminated (trace s) = []
  /\ ~ In EInterrupt (trace s)
  /\ (forall l n, In (ELog l (AllStarted n)) (trace s) ->
        n = length (spawned (trace s))
        /\ (out = Done tt \/ out = Blocked)
        /\ (out = Done tt <->
            forall h, h < n -> worker w h = ExitsOnItsOwn))
  /\ (out = Done tt ->
      exists before,
        trace s = before ++ map EJoin (seq 0 (length (spawned (trace s))))).
Proof.
  intros Hrun.
  assert (Hcount : forall tr, interrupts tr = 0 -> ~ In EInterrupt tr).
  { induction tr as [|e tr IH]; [tauto|].
    intros Hz [-> | H]; [discriminate|].
    destruct e; simpl in Hz; try discriminate; now apply (IH Hz). }
  assert (Halone : forall url,
    forallb (exits_alone w) (main_handles w url) = true <->
    forall h, h < length (main_accepted w url) -> worker w h = ExitsOnItsOwn).
  { intros url. unfold main_handles. rewrite forallb_forall. split.
    - intros H h Hh. specialize (H h). unfold exits_alone in H.
      destruct (worker w h); try reflexivity;
        (discriminate H; apply in_seq; lia).
    - intros H h Hh. apply in_seq in Hh. unfold exits_alone.
      rewrite H by lia. reflexivity. }
  assert (Hearly : shared_url w = None \/ cookie_files w = [] ->
    terminated (trace s) = []
    /\ ~ In EInterrupt (trace s)
    /\ (forall l n, In (ELog l (AllStarted n)) (trace s) ->
          n = length (spawned (trace s))
          /\ (out = Done tt \/ out = Blocked)
          /\ (out = Done tt <->
              forall h, h < n -> worker w h = ExitsOnItsOwn))
    /\ (out = Done tt ->
        exists before,
          trace s = before ++ map EJoin (seq 0 (length (spawned (trace s)))))).
  { intros H.
    destruct (run_main_with_early _ _ _ _ _ _ Hrun H)
      as (_ & Hsp & _ & Hno & Hterm & Hi & _).
    split; [exact Hterm|]. split; [now apply Hcount|].
    split; [intros l n Hin; now apply Hno in Hin|].
    intros _. rewrite Hsp. exists (trace s). simpl. now rewrite app_nil_r. }
  destruct (shared_url w) as [url|] eqn:Hurl; [|apply Hearly; now left].
  destruct (cookie_files w) as [|f fs] eqn:Hcf; [apply Hearly; now right|].
  clear Hearly.
  assert (Hne : cookie_files w <> []) by (rewrite Hcf; discriminate).
  pose proof (main_script_events w url) as Hev.
  destruct (run_main_with_launched _ _ _ _ url _ _ Hurl Hne Hrun)
    as [(_ & Hc & _)
       | [(-> & _ & pre & post & Hsc & Ht)
         | [(Hacc & -> & Ht) | (Hacc & s2 & Ht2 & Hp2 & Hs2 & Hsup)]]].
  - contradiction.
  - rewrite Hsc in Hev. apply Forall_app in Hev as [Hpre _]. rewrite Ht.
    split; [|split; [|split]].
    + rewrite terminated_app. simpl.
      apply (terminated_none launch_event); [|assumption].
      intros h Hh. exact Hh.
    + apply Hcount. rewrite interrupts_app. simpl.
      now apply interrupts_launch.
    + intros l n Hin. exfalso. rewrite <- (app_nil_r pre) in Hin.
      apply (not_started_yet _ _ _ _ _ _ _ Hsc) in Hin; [assumption | tauto].
    + discriminate.
  - rewrite Ht. split; [|split; [|split]].
    + rewrite !terminated_app, terminated_script. reflexivity.
    + apply Hcount. rewrite !interrupts_app. simpl.
      now rewrite (interrupts_launch _ Hev).
    + intros l n Hin. exfalso.
      apply (not_started_yet w url (main_script w url) [] _ l n) in Hin;
        [assumption | now rewrite app_nil_r | tauto].
    + intros _. rewrite !spawned_app. unfold main_script at 2.
      rewrite spawned_script. fold (main_accepted w url). rewrite Hacc.
      simpl. eexists. now rewrite app_nil_r.
  - destruct (supervise_quiet_run _ _ _ _ _ (Hp2 eq_refl) Hs2 Hsup)
      as (Hout & joined & Ht & Hall).
    assert (Hsp : spawned (trace s) = main_accepted w url).
    { rewrite Ht, Ht2, !spawned_app, spawned_joins. simpl.
      rewrite !app_nil_r. apply spawned_script. }
    rewrite Hsp. split; [|split; [|split]].
    + rewrite Ht, Ht2, !terminated_app, terminated_script, terminated_joins.
      reflexivity.
    + apply Hcount. rewrite Ht, Ht2, !interrupts_app, interrupts_joins.
      simpl. now rewrite (interrupts_launch _ Hev).
    + intros l n Hin. rewrite Ht, Ht2 in Hin.
      apply all_started_once in Hin; [|apply joins_events]. subst n.
      split; [reflexivity|]. rewrite <- Halone.
      destruct (forallb (exits_alone w) (main_handles w url)); rewrite Hout.
      * split; [now left | tauto].
      * split; [now right|]. split; discriminate.
    + intros Hdone. rewrite Ht, (Hall Hdone). eauto.
Qed.

(** A worker that ignores the signal never lets the join loop end: with a
    Ctrl+C due, the loop is interrupted, having signalled nobody. *)
Lemma join_all_interrupted w processes : forall s h,
  pending s <> None -> later s = [] ->
  In h processes -> worker w h = IgnoresSignal ->
  exists s1 joined,
    join_all w processes s = (Raised KeyboardInterrupt, s1)
    /\ pending s1 = None
    /\ trace s1 = trace s ++ map EJoin joined ++ [EInterrupt].
Proof.
  induction processes as [|k rest IH]; intros s h Hp Hl Hin Hw;
    [contradiction|].
  cbn [join_all] in *.
  unfold mbind, M_bind, bind, join_process, blocking, stuck, interrupted in *.
  destruct (exits w s k) eqn:Hex.
  - destruct (pending s) as [[|m]|] eqn:Hps; [| |contradiction].
    + eexists _, []. split; [reflexivity|]. simpl. rewrite Hl. now split.
    + destruct Hin as [-> | Hin].
      { unfold exits in Hex. rewrite Hw in Hex. discriminate. }
      destruct (IH (emit (EJoin k) (set_pending (Some m) s)) h)
        as (s1 & joined & E & Hn & Ht); [discriminate | assumption.. |].
      simpl. rewrite E. exists s1, (k :: joined). repeat split; auto.
      rewrite Ht. simpl. now rewrite <- app_assoc.
  - destruct (pending s) as [m|] eqn:Hps; [|contradiction].
    eexists _, []. split; [reflexivity|]. simpl. rewrite Hl. now split.
Qed.

(** The sweep stalls at the first worker that ignores the signal: the
    workers before it were signalled and joined, it was signalled, and the
    workers after it were not. *)
Lemma terminate_all_stall w before h rest : forall s,
  pending s = None ->
  Forall (fun k => worker w k <> IgnoresSignal) before ->
  worker w h = IgnoresSignal ->
  exists s',
    terminate_all w (before ++ h :: rest) s = (Blocked, s')
    /\ trace s' = trace s ++ sweep before ++ [ETerminate h].
Proof.
  induction before as [|k before IH]; intros s Hp Hall Hw.
  - simpl. unfold mbind, M_bind, bind, terminate, join_process, stuck, exits.
    simpl. rewrite Hw, Hp. eexists. split; reflexivity.
  - inversion Hall as [|? ? Hk Hrest]; subst.
    cbn [app terminate_all].
    unfold mbind at 1 2, M_bind at 1 2, bind at 1 2.
    unfold terminate, join_process, blocking, exits. simpl. rewrite Hp.
    assert (Hex : match worker w k with
                  | ExitsOnItsOwn => true
                  | RunsUntilSignalled => bool_decide (k ∈ k :: signalled s)
                  | IgnoresSignal => false
                  end = true).
    { destruct (worker w k); [reflexivity | | contradiction].
      apply bool_decide_eq_true_2. left. }
    rewrite Hex.
    destruct (IH (swept_one k s) Hp Hrest Hw) as (s' & E & Ht).
    unfold swept_one, emit in *. simpl in *. rewrite Hp in E. rewrite E.
    exists s'. split; [reflexivity|]. rewrite Ht, <- !app_assoc. reflexivity.
Qed.

(** X11. The handler of lines 131-135 signals and then awaits one handle at
    a time, with no timeout. When one Ctrl+C is due and the worker [h]
    ignores the signal while those tracked before it do not, [main] never
    gets past [h]: the handles before [h] and [h] itself have been
    signalled, in order, and none of those after [h] ever is. *)
Theorem X11_sweep_stalls_at_ignoring_worker
    (w : World) (before : list handle) (h : handle) (rest : list handle)
    (s : state) :
  pending s <> None ->
  later s = [] ->
  worker w h = IgnoresSignal ->
  Forall (fun k => worker w k <> IgnoresSignal) before ->
  exists s' joined,
    supervise w (before ++ h :: rest) s = (Blocked, s')
    /\ trace s' = trace s ++ map EJoin joined
                  ++ [EInterrupt; ELog INFO CaughtCtrlC]
                  ++ sweep before ++ [ETerminate h]
    /\ terminated (trace s') = terminated (trace s) ++ before ++ [h].
Proof.
  intros Hp Hl Hw Hall.
  destruct (join_all_interrupted w (before ++ h :: rest) s h Hp Hl)
    as (s1 & joined & E & Hn & Ht); [apply in_elt | assumption |].
  unfold supervise, try_except. rewrite E.
  unfold mbind at 1, M_bind at 1, bind at 1. unfold log at 1. unfold act.
  destruct (terminate_all_stall w before h rest
              (emit (ELog INFO CaughtCtrlC) s1) Hn Hall Hw)
    as (s2 & E2 & Ht2).
  unfold mbind, M_bind, bind. rewrite E2.
  exists s2, joined.
  assert (Htr : trace s2 = trace s ++ map EJoin joined
                  ++ [EInterrupt; ELog INFO CaughtCtrlC]
                  ++ sweep before ++ [ETerminate h]).
  { rewrite Ht2. simpl. rewrite Ht, <- !app_assoc. reflexivity. }
  repeat split; [exact Htr|].
  rewrite Htr, !terminated_app, terminated_joins, terminated_sweep.
  reflexivity.
Qed.

(** The spawns and waits of a run are the first ones of the script of its
    launch loop. *)
Lemma run_main_with_pace w ctrl_c more unresolvable out s :
  run_main_with w ctrl_c more unresolvable = (out, s) ->
  pace_view (trace s) = []
  \/ exists url rest,
       shared_url w = Some url
       /\ pace_view (main_script w url) = pace_view (trace s) ++ rest.
Proof.
  intros Hrun.
  destruct (shared_url w) as [url|] eqn:Hurl.
  2:{ left. now destruct (run_main_with_early _ _ _ _ _ _ Hrun
                            (or_introl Hurl)) as (_ & _ & _ & _ & _ & _ & ?). }
  destruct (cookie_files w) as [|f fs] eqn:Hcf.
  { left. destruct (run_main_with_early _ _ _ _ _ _ Hrun)
      as (_ & _ & _ & _ & _ & _ & ?); [now right | assumption]. }
  assert (Hne : cookie_files w <> []) by (rewrite Hcf; discriminate).
  right. exists url.
  destruct (run_main_with_launched _ _ _ _ url _ _ Hurl Hne Hrun)
    as [(_ & _ & pre & post & Hsc & Ht)
       | [(_ & _ & pre & post & Hsc & Ht)
         | [(_ & _ & Ht) | (Hacc & s2 & Ht2 & _ & _ & Hsup)]]].
  - exists (PSleep 30 :: pace_view post). split; [reflexivity|].
    rewrite Ht, Hsc, !pace_view_app. simpl. now rewrite app_nil_r.
  - exists (pace_view post). split; [reflexivity|].
    now rewrite Ht, Hsc, !pace_view_app.
  - exists []. split; [reflexivity|].
    rewrite Ht, !pace_view_app. simpl. now rewrite !app_nil_r.
  - destruct (supervise_any _ _ _ _ _ Hsup) as (d & Ht & Hd & _).
    exists []. split; [reflexivity|].
    rewrite Ht, Ht2, !pace_view_app, (supervise_events_pace d Hd). simpl.
    now rewrite !app_nil_r.
Qed.

(** X14. A pass of the loop over a rejected profile only logs the
    rejection. In every run, between two spawns with no spawn in between
    exactly one wait of 30 seconds completes, however many profiles were
    rejected in between; every wait lasts 30 seconds and comes right after
    a spawn; when every discovered profile is rejected no wait is performed
    at all. *)
Theorem X14_waits_follow_spawns
    (w : World) (ctrl_c : option nat) (more : list nat)
    (unresolvable : list path) (out : outcome unit) (s : state) :
  run_main_with w ctrl_c more unresolvable = (out, s) ->
  (forall gs n i profile processes s0,
     is_skip (check_profile w gs profile) = true ->
     resolve_raises w s0 gs profile = false ->
     exists l m, launch_one w gs n i profile processes s0
                 = (Done processes, emit (ELog l m) s0))
  /\ (forall t1 h1 c1 mid h2 c2 t2,
       trace s = t1 ++ ESpawn h1 c1 :: mid ++ ESpawn h2 c2 :: t2 ->
       spawned mid = [] -> pace_view mid = [PSleep 30])
  /\ (forall t1 secs t2,
       trace s = t1 ++ ESleep secs :: t2 ->
       secs = 30 /\ exists t0, pace_view t1 = t0 ++ [PSpawn])
  /\ (Forall (fun f => name_ok w f = false) (cookie_files w) ->
      forall secs, ~ In (ESleep secs) (trace s)).
Proof.
  intros Hrun. apply run_main_with_pace in Hrun.
  assert (Hp : paced (pace_view (trace s))).
  { destruct Hrun as [-> | (url & rest & _ & Hv)]; [constructor|].
    eapply paced_prefix; [|exact Hv].
    apply (script_paced w (global_settings_of w url)
             (length (main_profiles w)) (main_profiles w) 1 0 eq_refl). }
  split; [|split; [|split]].
  - intros gs n i profile processes s0 Hskip Hres. unfold launch_one.
    rewrite Hres.
    destruct (check_profile w gs profile) as [|l m]; [discriminate|].
    now exists l, m.
  - intros t1 h1 c1 mid h2 c2 t2 E Hmid. rewrite E in Hp.
    rewrite pace_view_app in Hp. simpl in Hp.
    rewrite pace_view_app in Hp. simpl in Hp.
    eapply paced_between; [exact Hp | reflexivity |].
    now apply pace_view_no_spawn.
  - intros t1 secs t2 E. rewrite E, pace_view_app in Hp. simpl in Hp.
    exact (paced_before_wait _ Hp _ _ _ eq_refl).
  - intros Hbad secs Hin. apply in_pace_view in Hin.
    destruct Hrun as [Hv | (url & rest & _ & Hv)]; [now rewrite Hv in Hin|].
    destruct (script_all_skipped w (global_settings_of w url)
                (length (main_profiles w)) (main_profiles w) 1 0
                (rejected_profiles w _ Hbad)) as (_ & Hnone & _).
    fold (main_script w url) in Hnone. rewrite Hnone in Hv.
    symmetry in Hv. apply app_eq_nil in Hv as [Hv _]. now rewrite Hv in Hin.
Qed.

(** X12. The line "all [n] instances started" is logged only when at least
    one worker was started, and its [n] is the number of workers the run
    started, which is at most the number of credential files discovered;
    the handles of these workers are [0] to [n - 1] in spawn order. *)
Theorem X12_all_started_reports_the_workers
    (w : World) (ctrl_c : option nat) (more : list nat)
    (unresolvable : list path) (out : outcome unit) (s : state)
    (l : level) (n : nat) :
  run_main_with w ctrl_c more unresolvable = (out, s) ->
  In (ELog l (AllStarted n)) (trace s) ->
  n = length (spawned (trace s))
  /\ 1 <= n <= length (cookie_files w)
  /\ started_handles (trace s) = seq 0 n.
Proof.
  intros Hrun Hin.
  destruct (shared_url w) as [url|] eqn:Hurl.
  2:{ destruct (run_main_with_early _ _ _ _ _ _ Hrun (or_introl Hurl))
        as (_ & _ & _ & Hno & _). now apply Hno in Hin. }
  destruct (cookie_files w) as [|f fs] eqn:Hcf.
  { destruct (run_main_with_early _ _ _ _ _ _ Hrun)
      as (_ & _ & _ & Hno & _); [now right|]. now apply Hno in Hin. }
  assert (Hne : cookie_files w <> []) by (rewrite Hcf; discriminate).
  rewrite <- Hcf. clear f fs Hcf.
  destruct (run_main_with_launched _ _ _ _ url _ _ Hurl Hne Hrun)
    as [(_ & _ & pre & post & Hsc & Ht)
       | [(_ & _ & pre & post & Hsc & Ht)
         | [(_ & _ & Ht) | (Hacc & s2 & Ht2 & _ & _ & Hsup)]]].
  - exfalso. rewrite Ht in Hin.
    apply (not_started_yet _ _ _ _ _ _ _ Hsc) in Hin; [assumption | tauto].
  - exfalso. rewrite Ht in Hin. rewrite <- (app_nil_r pre) in Hin.
    apply (not_started_yet _ _ _ _ _ _ _ Hsc) in Hin; [assumption | tauto].
  - exfalso. rewrite Ht in Hin.
    apply (not_started_yet w url (main_script w url) [] _ l n) in Hin;
      [assumption | now rewrite app_nil_r | tauto].
  - destruct (supervise_any _ _ _ _ _ Hsup) as (d & Ht & Hd & _).
    rewrite Ht, Ht2 in Hin. apply all_started_once in Hin; [|exact Hd].
    destruct (supervise_events_quiet d Hd) as [Hs Hh].
    assert (Hle : length (main_accepted w url) <= length (cookie_files w)).
    { rewrite main_accepted_eq, length_map. apply filter_length_le. }
    rewrite Ht, Ht2, !spawned_app, !started_handles_app, Hs, Hh. simpl.
    rewrite !app_nil_r. unfold main_script.
    rewrite spawned_script, started_handles_script.
    fold (main_accepted w url). subst n. repeat split; try lia.
    destruct (main_accepted w url); [contradiction | simpl; lia].
Qed.

End SupervisionFacts.

(** ** The further properties at work on the sample worlds *)

Section MoreWitnesses.

(** X2 at work: the configuration of the worker for [alice.json]. *)
Lemma X2_spawned_configuration_fields_witness :
  (<["cookie_file" := "alice.json"]>
     (global_settings_of Sample.two "https://x.test")) !! "url"
  = shared_url Sample.two
  /\ (<["cookie_file" := "alice.json"]>
        (global_settings_of Sample.two "https://x.test")) !! "headless"
     = Some (default "virtual"
               (_clean_env_value (getenv Sample.two "CAMOUFOX_HEADLESS")))
  /\ (<["cookie_file" := "alice.json"]>
        (global_settings_of Sample.two "https://x.test")) !! "proxy"
     = _clean_env_value (getenv Sample.two "CAMOUFOX_PROXY")
  /\ (exists f, In f (cookie_files Sample.two) /\ name_ok Sample.two f = true
                /\ (<["cookie_file" := "alice.json"]>
                      (global_settings_of Sample.two "https://x.test"))
                   !! "cookie_file" = Some f)
  /\ (forall k, k <> "url" -> k <> "headless" -> k <> "proxy" ->
                k <> "cookie_file" ->
                (<["cookie_file" := "alice.json"]>
                   (global_settings_of Sample.two "https://x.test")) !! k
                = None).
Proof.
  apply (X2_spawned_configuration_fields Sample.two None
           (fst (run_main Sample.two None)) (snd (run_main Sample.two None))).
  - apply surjective_pairing.
  - vm_compute. left. reflexivity.
Defined.

(** X3 at work: the directory cannot be listed. *)
Lemma X3_listing_error_is_caught_witness :
  exists s,
    run_main Worlds.unreadable (Some 0) = (Done tt, s)
    /\ trace s = setup_trace
                 ++ [EIsDir; EListDir; ELog ERROR (ScanFailed "PermissionError");
                     ELog ERROR NoInstances]
    /\ pending s = Some 0.
Proof.
  apply (X3_listing_error_is_caught Worlds.unreadable (Some 0)
           "https://x.test").
  - vm_compute. reflexivity.
  - reflexivity.
Defined.

(** X4 at work: the directory is created by [main] and is empty. *)
Lemma X4_no_credential_file_halts_witness :
  exists s,
    run_main Worlds.no_directory None = (Done tt, s)
    /\ trace s = setup_trace
                 ++ [EIsDir; EListDir;
                     ELog ERROR (NoCookieFiles (cookies_dir Worlds.no_directory));
                     ELog ERROR NoInstances]
    /\ pending s = None
    /\ cookies s <> Missing.
Proof.
  apply (X4_no_credential_file_halts Worlds.no_directory None "https://x.test").
  - vm_compute. reflexivity.
  - intros err. discriminate.
  - reflexivity.
Defined.

(** X5 at work: a run that rejects a link. *)
Lemma X5_dead_checks_in_main_witness :
  (forall l c,
     ~ In (ELog l (NotJson c)) (trace (snd (run_main Worlds.trailing_link None))))
  /\ (forall l p,
       ~ In (ELog l (SkipInvalidItem p))
            (trace (snd (run_main Worlds.trailing_link None))))
  /\ (forall l c,
       In (ELog l (NameCarriesPath c))
          (trace (snd (run_main Worlds.trailing_link None))) ->
       In c (cookie_files Worlds.trailing_link) /\ Str.has_sep c = true)
  /\ (forall l c,
       In (ELog l (OutsideCookies c))
          (trace (snd (run_main Worlds.trailing_link None))) ->
       In c (cookie_files Worlds.trailing_link) /\ Str.has_sep c = false
       /\ escapes Worlds.trailing_link c = true).
Proof.
  apply (X5_dead_checks_in_main Worlds.trailing_link None
           (fst (run_main Worlds.trailing_link None))).
  apply surjective_pairing.
Defined.

(** X6 at work: [alice.json] is a plain file. *)
Lemma X6_plain_name_is_accepted_witness :
  escapes Sample.two "alice.json" = false
  /\ check_profile Sample.two (global_settings_of Sample.two "https://x.test")
       (profile_of "alice.json")
     = Accept (profile_of "alice.json"
               ∪ global_settings_of Sample.two "https://x.test")
              "alice.json".
Proof.
  apply X6_plain_name_is_accepted.
  - vm_compute. reflexivity.
  - exists "https://x.test". vm_compute. reflexivity.
  - reflexivity.
  - reflexivity.
  - vm_compute. reflexivity.
Defined.

(** X7 at work: an empty profile against empty settings. *)
Lemma X7_missing_field_is_a_warning_witness :
  check_profile Sample.two ∅ ∅ = Skip WARNING (SkipInvalidItem ∅)
  /\ (forall before after,
       spawned (launch_trace Sample.two ∅ (before ++ ∅ :: after) None)
       = spawned (launch_trace Sample.two ∅ (before ++ after) None)).
Proof.
  apply X7_missing_field_is_a_warning. left. reflexivity.
Defined.

(** X8 at work: two valid files, one wait between the two spawns. *)
Lemma X8_all_valid_is_paced_without_trailing_wait_witness :
  pace_view (trace (snd (run_main Sample.two None)))
  = alternation (length (cookie_files Sample.two))
  /\ length (spawned (trace (snd (run_main Sample.two None))))
     = length (cookie_files Sample.two).
Proof.
  apply (X8_all_valid_is_paced_without_trailing_wait Sample.two None
           "https://x.test" (fst (run_main Sample.two None))).
  - vm_compute. reflexivity.
  - vm_compute. repeat constructor.
  - apply surjective_pairing.
  - vm_compute. discriminate.
Defined.

(** X9 at work: Ctrl+C during the first wait. *)
Lemma X9_pacing_interrupt_escapes_witness :
  fst (run_main Sample.two (Some 0)) = Raised KeyboardInterrupt
  /\ (exists view,
        pace_view (trace (snd (run_main Sample.two (Some 0))))
        = view ++ [PSpawn])
  /\ spawned (trace (snd (run_main Sample.two (Some 0)))) <> []
  /\ terminated (trace (snd (run_main Sample.two (Some 0)))) = []
  /\ (forall h, ~ In (EJoin h) (trace (snd (run_main Sample.two (Some 0)))))
  /\ (forall l n,
        ~ In (ELog l (AllStarted n))
             (trace (snd (run_main Sample.two (Some 0))))).
Proof.
  apply (X9_pacing_interrupt_escapes Sample.two (Some 0) [] [] _ _
           (discovery_trace Sample.two "https://x.test"
            ++ [ELog INFO (Starting 1 2 "alice.json");
                ESpawn 0 (<["cookie_file" := "alice.json"]>
                            (global_settings_of Sample.two "https://x.test"))])).
  - apply surjective_pairing.
  - vm_compute. reflexivity.
Defined.

(** X10 at work: the one worker started ends by itself. *)
Lemma X10_run_without_interrupt_witness :
  terminated (trace (snd (run_main Worlds.trailing_link None))) = []
  /\ ~ In EInterrupt (trace (snd (run_main Worlds.trailing_link None)))
  /\ (forall l n,
        In (ELog l (AllStarted n))
           (trace (snd (run_main Worlds.trailing_link None))) ->
        n = length (spawned (trace (snd (run_main Worlds.trailing_link None))))
        /\ (fst (run_main Worlds.trailing_link None) = Done tt
            \/ fst (run_main Worlds.trailing_link None) = Blocked)
        /\ (fst (run_main Worlds.trailing_link None) = Done tt <->
            forall h, h < n -> worker Worlds.trailing_link h = ExitsOnItsOwn))
  /\ (fst (run_main Worlds.trailing_link None) = Done tt ->
      exists before,
        trace (snd (run_main Worlds.trailing_link None))
        = before
          ++ map EJoin
               (seq 0 (length (spawned
                          (trace (snd (run_main Worlds.trailing_link None))))))).
Proof.
  apply (X10_run_without_interrupt Worlds.trailing_link [] []).
  apply surjective_pairing.
Defined.

(** X11 at work: three workers, the second ignores the signal. *)
Lemma X11_sweep_stalls_at_ignoring_worker_witness :
  exists s' joined,
    supervise Worlds.stubborn ([0] ++ 1 :: [2])
              (start Worlds.stubborn (Some 0)) = (Blocked, s')
    /\ trace s' = trace (start Worlds.stubborn (Some 0)) ++ map EJoin joined
                  ++ [EInterrupt; ELog INFO CaughtCtrlC]
                  ++ sweep [0] ++ [ETerminate 1]
    /\ terminated (trace s')
       = terminated (trace (start Worlds.stubborn (Some 0))) ++ [0] ++ [1].
Proof.
  apply X11_sweep_stalls_at_ignoring_worker.
  - discriminate.
  - reflexivity.
  - reflexivity.
  - repeat constructor. discriminate.
Defined.

(** X12 at work: two workers started, Ctrl+C during the first join and
    again while the handler awaits the first worker. *)
Lemma X12_all_started_reports_the_workers_witness :
  2 = length (spawned (trace (snd (run_main_with Sample.two (Some 1) [0] []))))
  /\ 1 <= 2 <= length (cookie_files Sample.two)
  /\ started_handles (trace (snd (run_main_with Sample.two (Some 1) [0] [])))
     = seq 0 2.
Proof.
  apply (X12_all_started_reports_the_workers Sample.two (Some 1) [0] []
           (fst (run_main_with Sample.two (Some 1) [0] [])) _ INFO).
  - apply surjective_pairing.
  - vm_compute. auto 20.
Defined.

(** X14 at work: a rejected link sits between the two accepted files, and
    one wait of 30 seconds separates the two spawns; where every file is a
    link leading outside there is no wait. *)
Lemma X14_waits_follow_spawns_witness :
  (exists t1 h1 c1 mid h2 c2 t2,
     trace (snd (run_main Worlds.link_between None))
     = t1 ++ ESpawn h1 c1 :: mid ++ ESpawn h2 c2 :: t2
     /\ In (ELog ERROR (OutsideCookies "m.json")) mid
     /\ pace_view mid = [PSleep 30])
  /\ (forall secs,
        ~ In (ESleep secs) (trace (snd (run_main Worlds.only_links None)))).
Proof.
  split.
  - destruct (X14_waits_follow_spawns Worlds.link_between None [] []
                (fst (run_main Worlds.link_between None))
                (snd (run_main Worlds.link_between None))
                (surjective_pairing _)) as (_ & Hbetween & _).
    assert (E : trace (snd (run_main Worlds.link_between None))
                = (discovery_trace Worlds.link_between "https://x.test"
                   ++ [ELog INFO (Starting 1 3 "a.json")])
                  ++ ESpawn 0 (<["cookie_file" := "a.json"]>
                       (global_settings_of Worlds.link_between "https://x.test"))
                  :: [ELog INFO Waiting30; ESleep 30;
                      ELog ERROR (OutsideCookies "m.json");
                      ELog INFO (Starting 3 3 "z.json")]
                  ++ ESpawn 1 (<["cookie_file" := "z.json"]>
                       (global_settings_of Worlds.link_between "https://x.test"))
                  :: [ELog INFO (AllStarted 2); EJoin 0; EJoin 1])
      by (vm_compute; reflexivity).
    eexists _, _, _, _, _, _, _. split; [exact E|].
    split; [simpl; auto|].
    exact (Hbetween _ _ _ _ _ _ _ E eq_refl).
  - destruct (X14_waits_follow_spawns Worlds.only_links None [] []
                (fst (run_main Worlds.only_links None))
                (snd (run_main Worlds.only_links None))
                (surjective_pairing _)) as (_ & _ & _ & Hnone).
    apply Hnone. vm_compute. repeat constructor.
Defined.

End MoreWitnesses.
